(** * machine-sync: a shallow embedding of [main.go] and the keychain file.

    The program watches a local directory and mirrors every file event to a
    remote machine over one shared SFTP session.  The embedding keeps the
    shape of the Go code:

    - [Fsnotify]  the file events the watcher delivers;
    - [Sync]      [handleEvent] as a program over the calls it makes
                  (logging, [os.Open], [ioutil.ReadAll], the three SFTP
                  operations, the mutex and the error channel), with a
                  sequential interpreter, a two-goroutine scheduler and an
                  in-memory model of the local and the remote file system;
    - [Keychain]  [loadPEM];
    - [Cli]       the flag table of [main], flag lookup and [checkFlags];
    - [Startup]   [loadConfig], the start-up sequence of [watch], and
                  [app.Run] as [main] uses it. *)

From stdpp Require Import base option list strings pretty gmap.
From Stdlib Require Import ZArith.

Local Open Scope string_scope.

(** Go's [error] values, identified with their message. *)
Definition error : Type := string.

(** [[]byte] *)
Definition bytes : Type := list Byte.byte.

(** ** fsnotify events *)
Module Fsnotify.

(** What the watcher reports about a path. *)
Inductive Kind : Type := Created | Modified | Deleted | Renamed.

(** [fsnotify.FileEvent]: the path as the watcher saw it, and the kind. *)
Record FileEvent : Type := { Name : string; kind : Kind }.

Definition IsDelete (evt : FileEvent) : bool :=
  match kind evt with Deleted => true | _ => false end.

End Fsnotify.

(** ** The sync engine *)
Module Sync.
Import Fsnotify.

Section Program.
(** [*os.File] and [*sftp.File]. *)
Context {File Handle : Type}.

(** The calls a goroutine of this program can make, indexed by what Go
    hands back. *)
Inductive Call : Type -> Type :=
| Infof (msg : string) : Call unit
| LogError (err : error) : Call unit
| Open (name : string) : Call (error + File)
| ReadAll (f : File) : Call (error + bytes)
| Remove (path : string) : Call (option error)
| Create (path : string) : Call (error + Handle)
| FileWrite (h : Handle) (data : bytes) : Call (option error)
| Lock : Call unit
| Unlock : Call unit
| Send (err : error) : Call unit.

(** A goroutine body: a finite tree of calls. *)
Inductive Prog : Type :=
| Return
| Bind {R : Type} (c : Call R) (k : R -> Prog).

(** One performed call with its answer. *)
Inductive Action : Type :=
| Act {R : Type} (c : Call R) (r : R).

End Program.
Arguments Call : clear implicits.
Arguments Prog : clear implicits.
Arguments Action : clear implicits.

Declare Scope prog_scope.
Delimit Scope prog_scope with prog.
Notation "x <- c ; k" := (Bind c (fun x => k))
  (at level 100, c at next level, right associativity) : prog_scope.
Notation "c ;; k" := (Bind c (fun _ => k))
  (at level 100, right associativity) : prog_scope.

(** The remote path of an event, main.go 179:
    [fmt.Sprintf("%s/%s", destPath, evt.Name)]. *)
Definition remotePath (destPath : string) (evt : FileEvent) : string :=
  destPath +:+ "/" +:+ Name evt.

(** [handleEvent], main.go 176-214.  [destPath] is the package variable
    set by [watch]; the [errChan] argument is the machine's error
    channel, which [Send] would reach. *)
Definition handleEvent {File Handle : Type}
    (destPath : string) (evt : FileEvent) : Prog File Handle :=
  let filePath := remotePath destPath evt in
  if IsDelete evt then
    (Infof ("deleting " +:+ filePath) ;;
     r <- Remove filePath ;
     match r with
     | Some err => LogError err ;; Return
     | None => Return
     end)%prog
  else
    (Infof ("updating " +:+ filePath) ;;
     o <- Open (Name evt) ;
     match o with
     | inl err => LogError err ;; Return
     | inr localFile =>
         _ <- Remove filePath ;
         c <- Create filePath ;
         match c with
         | inl err => LogError err ;; Return
         | inr remoteFile =>
             d <- ReadAll localFile ;
             match d with
             | inl err => LogError err ;; Return
             | inr data =>
                 w <- FileWrite remoteFile data ;
                 match w with
                 | Some err => LogError err ;; Return
                 | None => Return
                 end
             end
         end
     end)%prog.

(** *** Running a program *)

(** What lies outside the process: the local file system and the SFTP
    server behind the shared client. *)
Class Sys (W File Handle : Type) : Type := {
  os_Open : string -> W -> (error + File) * W;
  ioutil_ReadAll : File -> W -> (error + bytes) * W;
  sftp_Remove : string -> W -> option error * W;
  sftp_Create : string -> W -> (error + Handle) * W;
  file_Write : Handle -> bytes -> W -> option error * W
}.

(** The process state the goroutines share. *)
Record Machine (W : Type) : Type := {
  world : W;
  mutex : bool;              (* is [mutex] held *)
  errorChan : list error     (* values sent and not yet received *)
}.
Arguments world {W} _.
Arguments mutex {W} _.
Arguments errorChan {W} _.

Section Run.
Context {W File Handle : Type} `{S : Sys W File Handle}.

Definition setWorld (m : Machine W) (w : W) : Machine W :=
  {| world := w; mutex := mutex m; errorChan := errorChan m |}.

(** One call against the machine; [None] when the goroutine blocks. *)
Definition perform {R : Type} (c : Call File Handle R) (m : Machine W)
    : option (R * Machine W) :=
  match c in Call _ _ R return option (R * Machine W) with
  | Infof _ => Some (tt, m)
  | LogError _ => Some (tt, m)
  | Open name =>
      let '(r, w) := os_Open name (world m) in Some (r, setWorld m w)
  | ReadAll f =>
      let '(r, w) := ioutil_ReadAll f (world m) in Some (r, setWorld m w)
  | Remove path =>
      let '(r, w) := sftp_Remove path (world m) in Some (r, setWorld m w)
  | Create path =>
      let '(r, w) := sftp_Create path (world m) in Some (r, setWorld m w)
  | FileWrite h data =>
      let '(r, w) := file_Write h data (world m) in Some (r, setWorld m w)
  | Lock =>
      if mutex m then None
      else Some (tt, {| world := world m; mutex := true;
                        errorChan := errorChan m |})
  | Unlock =>
      Some (tt, {| world := world m; mutex := false;
                   errorChan := errorChan m |})
  | Send err =>
      Some (tt, {| world := world m; mutex := mutex m;
                   errorChan := (errorChan m ++ [err])%list |})
  end.

(** A goroutine run to its end with nothing else scheduled. *)
Fixpoint exec (p : Prog File Handle) (m : Machine W)
    : list (Action File Handle) * Machine W :=
  match p with
  | Return => ([], m)
  | Bind c k =>
      match perform c m with
      | Some (r, m1) =>
          let '(t, m2) := exec (k r) m1 in (Act c r :: t, m2)
      | None => ([], m)
      end
  end.

(** One scheduling step of a goroutine. *)
Definition step (p : Prog File Handle) (m : Machine W)
    : option (Action File Handle * Prog File Handle * Machine W) :=
  match p with
  | Return => None
  | Bind c k =>
      match perform c m with
      | Some (r, m1) => Some (Act c r, k r, m1)
      | None => None
      end
  end.

(** Two goroutines under a schedule: [false] picks the first, [true]
    the second; a pick of a finished or blocked goroutine is skipped. *)
Fixpoint run2 (sched : list bool) (p q : Prog File Handle) (m : Machine W)
    : list (bool * Action File Handle) * Machine W :=
  match sched with
  | [] => ([], m)
  | false :: s =>
      match step p m with
      | Some (a, p1, m1) =>
          let '(t, m2) := run2 s p1 q m1 in ((false, a) :: t, m2)
      | None => run2 s p q m
      end
  | true :: s =>
      match step q m with
      | Some (a, q1, m1) =>
          let '(t, m2) := run2 s p q1 m1 in ((true, a) :: t, m2)
      | None => run2 s p q m
      end
  end.

End Run.

(** *** Reading traces *)

Section Traces.
Context {File Handle : Type}.

Definition isLogError (a : Action File Handle) : bool :=
  match a with Act c _ =>
    match c with LogError _ => true | _ => false end end.

Definition isSend (a : Action File Handle) : bool :=
  match a with Act c _ =>
    match c with Send _ => true | _ => false end end.

Definition isMutexCall (a : Action File Handle) : bool :=
  match a with Act c _ =>
    match c with Lock | Unlock => true | _ => false end end.

(** The remote operations, in the order issued. *)
Inductive RemoteOp : Type :=
| OpRemove (path : string)
| OpCreate (path : string)
| OpWrite (h : Handle) (data : bytes).

Definition remoteOp (a : Action File Handle) : option RemoteOp :=
  match a with Act c _ =>
    match c with
    | Remove p => Some (OpRemove p)
    | Create p => Some (OpCreate p)
    | FileWrite h d => Some (OpWrite h d)
    | _ => None
    end end.

Definition remoteOps (t : list (Action File Handle)) : list RemoteOp :=
  omap remoteOp t.

(** The remote operations of a two-goroutine run, each with the goroutine
    that issued it. *)
Definition remoteOps2 (t : list (bool * Action File Handle))
    : list (bool * RemoteOp) :=
  omap (fun ga => match remoteOp ga.2 with
                  | Some op => Some (ga.1, op)
                  | None => None
                  end) t.

(** How many errors the run logged, and what it put on the error channel. *)
Definition errorsLogged (t : list (Action File Handle)) : nat :=
  length (List.filter isLogError t).

Definition sends (t : list (Action File Handle)) : list (Action File Handle) :=
  List.filter isSend t.

Definition mutexCalls (t : list (Action File Handle))
    : list (Action File Handle) :=
  List.filter isMutexCall t.

(** Did a step whose error [handleEvent] checks come back with an error?
    The remove of the update branch is not checked, the remove of the
    delete branch is. *)
Definition failedStep (isDelete : bool) (a : Action File Handle) : bool :=
  match a with Act c r =>
    match c in Call _ _ R return R -> bool with
    | Open _ => fun r => match r with inl _ => true | inr _ => false end
    | ReadAll _ => fun r => match r with inl _ => true | inr _ => false end
    | Create _ => fun r => match r with inl _ => true | inr _ => false end
    | FileWrite _ _ => fun r => match r with Some _ => true | None => false end
    | Remove _ => fun r =>
        match r with Some _ => isDelete | None => false end
    | _ => fun _ => false
    end r end.

Definition handlingFailed (isDelete : bool) (t : list (Action File Handle))
    : bool :=
  existsb (failedStep isDelete) t.

(** The runs a delete event can have: one remove, and a logged error
    when it failed. *)
Inductive DeleteRun (path : string) : list (Action File Handle) -> Prop :=
| delete_done :
    DeleteRun path
      [Act (Infof ("deleting " +:+ path)) tt; Act (Remove path) None]
| delete_failed err :
    DeleteRun path
      [Act (Infof ("deleting " +:+ path)) tt; Act (Remove path) (Some err);
       Act (LogError err) tt].

(** The runs an update (create, modify, rename) can have: the steps in
    order, cut at the first checked failure. *)
Inductive UpdateRun (name path : string)
    : list (Action File Handle) -> Prop :=
| update_open_failed err :
    UpdateRun name path
      [Act (Infof ("updating " +:+ path)) tt; Act (Open name) (inl err);
       Act (LogError err) tt]
| update_create_failed f rm err :
    UpdateRun name path
      [Act (Infof ("updating " +:+ path)) tt; Act (Open name) (inr f);
       Act (Remove path) rm; Act (Create path) (inl err);
       Act (LogError err) tt]
| update_read_failed f rm h err :
    UpdateRun name path
      [Act (Infof ("updating " +:+ path)) tt; Act (Open name) (inr f);
       Act (Remove path) rm; Act (Create path) (inr h);
       Act (ReadAll f) (inl err); Act (LogError err) tt]
| update_write_failed f rm h data err :
    UpdateRun name path
      [Act (Infof ("updating " +:+ path)) tt; Act (Open name) (inr f);
       Act (Remove path) rm; Act (Create path) (inr h);
       Act (ReadAll f) (inr data); Act (FileWrite h data) (Some err);
       Act (LogError err) tt]
| update_done f rm h data :
    UpdateRun name path
      [Act (Infof ("updating " +:+ path)) tt; Act (Open name) (inr f);
       Act (Remove path) rm; Act (Create path) (inr h);
       Act (ReadAll f) (inr data); Act (FileWrite h data) None].

End Traces.

(** *** An in-memory world *)

(** A local file: opened, it yields its bytes or a read error. *)
Inductive LocalFile : Type :=
| Readable (data : bytes)
| Unreadable (err : error).

(** The local directory, the files on the remote machine, and the remote
    paths at which the server refuses a create or a write. *)
Record MemWorld : Type := {
  localFS : gmap string LocalFile;
  remoteFS : gmap string bytes;
  noCreate : gset string;
  noWrite : gset string
}.

Definition setRemote (w : MemWorld) (r : gmap string bytes) : MemWorld :=
  {| localFS := localFS w; remoteFS := r;
     noCreate := noCreate w; noWrite := noWrite w |}.

Definition mem_Open (name : string) (w : MemWorld)
    : (error + LocalFile) * MemWorld :=
  match localFS w !! name with
  | Some f => (inr f, w)
  | None => (inl ("open " +:+ name +:+ ": no such file or directory"), w)
  end.

Definition mem_ReadAll (f : LocalFile) (w : MemWorld)
    : (error + bytes) * MemWorld :=
  match f with
  | Readable data => (inr data, w)
  | Unreadable err => (inl err, w)
  end.

(** SSH_FXP_REMOVE: an error when there is no such file. *)
Definition mem_Remove (path : string) (w : MemWorld)
    : option error * MemWorld :=
  match remoteFS w !! path with
  | Some _ => (None, setRemote w (delete path (remoteFS w)))
  | None => (Some "file does not exist", w)
  end.

(** [Client.Create] opens with O_RDWR|O_CREATE|O_TRUNC; the handle
    remembers its path. *)
Definition mem_Create (path : string) (w : MemWorld)
    : (error + string) * MemWorld :=
  if decide (path ∈ noCreate w) then (inl "permission denied", w)
  else (inr path, setRemote w (<[path := []]> (remoteFS w))).

(** A first write on a handle goes to offset 0 and keeps what the file
    holds beyond the written bytes; a file removed meanwhile is no longer
    reachable by its path. *)
Definition mem_Write (h : string) (data : bytes) (w : MemWorld)
    : option error * MemWorld :=
  if decide (h ∈ noWrite w) then (Some "failure", w)
  else match remoteFS w !! h with
       | Some old =>
           (None,
            setRemote w (<[h := (data ++ drop (length data) old)%list]>
                           (remoteFS w)))
       | None => (None, w)
       end.

#[export] Instance memSys : Sys MemWorld LocalFile string := {|
  os_Open := mem_Open;
  ioutil_ReadAll := mem_ReadAll;
  sftp_Remove := mem_Remove;
  sftp_Create := mem_Create;
  file_Write := mem_Write
|}.

(** The remote files an update of local file [name] at remote [path]
    leaves behind: untouched when the open fails, the old file gone when
    the create is refused, an empty file when the read or the write
    fails, and the local bytes otherwise. *)
Definition afterUpdate (w : MemWorld) (name path : string)
    : gmap string bytes :=
  match localFS w !! name with
  | None => remoteFS w
  | Some f =>
      if decide (path ∈ noCreate w) then delete path (remoteFS w)
      else match f with
           | Unreadable _ => <[path := []]> (remoteFS w)
           | Readable data =>
               if decide (path ∈ noWrite w) then <[path := []]> (remoteFS w)
               else <[path := data]> (remoteFS w)
           end
  end.

(** The world with its local directory replaced: edits made on the local
    side while the process runs. *)
Definition setLocal (w : MemWorld) (l : gmap string LocalFile) : MemWorld :=
  {| localFS := l; remoteFS := remoteFS w;
     noCreate := noCreate w; noWrite := noWrite w |}.

(** A machine at rest: mutex free, nothing on the error channel. *)
Definition idle {W : Type} (w : W) : Machine W :=
  {| world := w; mutex := false; errorChan := [] |}.

(** [handleEvent] on the in-memory world. *)
Definition handle (destPath : string) (evt : FileEvent) (m : Machine MemWorld)
    : list (Action LocalFile string) * Machine MemWorld :=
  exec (handleEvent destPath evt) m.

End Sync.

(** ** The credential provider (the keychain file) *)
Module Keychain.

Section Keychain.
(** [ssh.Signer] *)
Context {Signer : Type}.

(** [type keychain struct { key ssh.Signer }]; a nil interface is [None]. *)
Record keychain : Type := { key : option Signer }.

Variable ioutil_ReadFile : string -> error + bytes.
Variable ssh_ParsePrivateKey : bytes -> error + Signer.

(** [(k *keychain) loadPEM(file)]: the returned error and the keychain
    as the call leaves it. *)
Definition loadPEM (k : keychain) (file : string)
    : option error * keychain :=
  match ioutil_ReadFile file with
  | inl err => (Some err, k)
  | inr buf =>
      match ssh_ParsePrivateKey buf with
      | inl err => (Some err, k)
      | inr parsed => (None, {| key := Some parsed |})
      end
  end.

End Keychain.
Arguments keychain : clear implicits.

End Keychain.

(** ** Flags: the table of [main], lookup, and [checkFlags] *)
Module Cli.

(** [cli.StringFlag{Name: "name, alias", Value: value}] and
    [cli.BoolFlag{Name: "name, alias"}]. *)
Inductive Flag : Type :=
| StringFlag (name alias value : string)
| BoolFlag (name alias : string).

(** The flag table of [main], main.go 222-252; [machinePath] is
    [filepath.Join(os.Getenv("HOME"), ".docker", "machines")]. *)
Definition appFlags (machinePath : string) : list Flag :=
  [ StringFlag "directory" "d" "";
    StringFlag "machine" "m" "";
    StringFlag "machine-path" "c" machinePath;
    StringFlag "destination" "p" "";
    StringFlag "user" "u" "root";
    BoolFlag "debug" "D" ].

(** The global flag set of a [cli.Context]. *)
Record Context : Type := {
  globalStrings : gmap string string;
  globalBools : gmap string bool
}.

(** [c.GlobalString(name)]: the empty string for a flag never declared. *)
Definition GlobalString (c : Context) (name : string) : string :=
  default "" (globalStrings c !! name).

Definition GlobalBool (c : Context) (name : string) : bool :=
  default false (globalBools c !! name).

Definition setString (name value : string) (c : Context) : Context :=
  {| globalStrings := <[name := value]> (globalStrings c);
     globalBools := globalBools c |}.

Definition setBool (name : string) (value : bool) (c : Context) : Context :=
  {| globalStrings := globalStrings c;
     globalBools := <[name := value]> (globalBools c) |}.

(** Declaring a flag gives it its default. *)
Definition declare (f : Flag) (c : Context) : Context :=
  match f with
  | StringFlag name _ value => setString name value c
  | BoolFlag name _ => setBool name false c
  end.

Definition defaults (flags : list Flag) : Context :=
  foldr declare {| globalStrings := ∅; globalBools := ∅ |} flags.

(** One flag of the command line, named by its long name or its alias
    (dashes taken off). *)
Inductive Arg : Type :=
| StringArg (name value : string)
| BoolArg (name : string) (value : bool).

Definition answersTo (n : string) (f : Flag) : bool :=
  match f with
  | StringFlag name alias _ | BoolFlag name alias =>
      bool_decide (n = name) || bool_decide (n = alias)
  end.

Definition findFlag (flags : list Flag) (n : string) : option Flag :=
  List.find (answersTo n) flags.

(** The command line read left to right, a later setting replacing an
    earlier one; [None] is a usage error. *)
Fixpoint parse (flags : list Flag) (args : list Arg) (c : Context)
    : option Context :=
  match args with
  | [] => Some c
  | StringArg n v :: rest =>
      match findFlag flags n with
      | Some (StringFlag name _ _) => parse flags rest (setString name v c)
      | _ => None
      end
  | BoolArg n b :: rest =>
      match findFlag flags n with
      | Some (BoolFlag name _) => parse flags rest (setBool name b c)
      | _ => None
      end
  end.

Definition newContext (flags : list Flag) (args : list Arg)
    : option Context :=
  parse flags args (defaults flags).

Definition errFlagError : error := "flag error".

(** What [checkFlags] leaves behind: the lines it logged at error level,
    whether it switched the logger to debug level, and its result. *)
Record Checked : Type := {
  logged : list string;
  debugLevel : bool;
  result : option error
}.

Definition flagError (msg : string) : Checked :=
  {| logged := [msg]; debugLevel := false; result := Some errFlagError |}.

(** [checkFlags], main.go 39-65. *)
Definition checkFlags (c : Context) : Checked :=
  if decide (GlobalString c "directory" = "") then
    flagError "you must specify a directory"
  else if decide (GlobalString c "machine" = "") then
    flagError "you must specify a machine"
  else if decide (GlobalString c "destination" = "") then
    flagError "you must specify a destination path"
  else if decide (GlobalString c "user" = "") then
    flagError "you must specify a user"
  else
    {| logged := []; debugLevel := GlobalBool c "debug"; result := None |}.

End Cli.

(** ** Start-up: [loadConfig], [watch] and [main] *)
Module Startup.
Import Cli Keychain Fsnotify Sync.

(** The [Driver] fields of [MachineConfig]; absent JSON fields decode
    to the zero values.  [loadConfig] hands out a pointer to it, and a nil
    pointer is [None]. *)
Record MachineConfig : Type := { IPAddress : string; SSHPort : Z }.

Section Startup.
Context {OsFile Signer SshClient SftpClient Watcher : Type}.

(** The package variables [watch] assigns; a nil [rsftp] is [None]. *)
Record Globals : Type := {
  srcPath : string;
  destPath : string;
  machineName : string;
  machineConfigPath : string;
  machineUser : string;
  rsftp : option SftpClient
}.

(** [ssh.ClientConfig{User, Auth: PublicKeys(kc)}] *)
Record ClientConfig : Type := { User : string; Auth : keychain Signer }.

(** The operating system and the libraries, as [watch] meets them. *)
Record Externals : Type := {
  filepath_Join : list string -> string;
  os_Getenv : string -> string;
  os_OpenConfig : string -> error + OsFile;
  (* Decode(&c) on the pointer c: a config.json that holds null leaves
     the pointer nil, with no error *)
  json_Decode : OsFile -> error + option MachineConfig;
  ioutil_ReadFile : string -> error + bytes;
  ssh_ParsePrivateKey : bytes -> error + Signer;
  fmt_d : Z -> string;
  ssh_Dial : string -> string -> ClientConfig -> error + SshClient;
  sftp_NewClient : SshClient -> error + SftpClient;
  fsnotify_NewWatcher : error + Watcher;
  watcher_Watch : Watcher -> string -> option error
}.

Variable ext : Externals.

Definition getMachineConfigDir (configPath name : string) : string :=
  filepath_Join ext [configPath; name].

(** [loadConfig], main.go 71-85: the error, or the pointer [c] as the
    decoder left it. *)
Definition loadConfig (configPath name : string)
    : error + option MachineConfig :=
  let conf :=
    filepath_Join ext [getMachineConfigDir configPath name; "config.json"] in
  match os_OpenConfig ext conf with
  | inl err => inl err
  | inr data =>
      match json_Decode ext data with
      | inl err => inl err
      | inr c => inr c
      end
  end.

(** The library calls of [watch] that reach outside the process, and the
    goroutines it starts. *)
Inductive StartupCall : Type :=
| DidDial (network addr user : string)
| DidNewClient
| DidNewWatcher
| GoEventLoop
| GoErrorLoop
| DidWatch (dir : string).

(** [log.Fatal] ends the process, and so does a run-time panic; otherwise
    [watch] blocks on [done] with the watch running. *)
Inductive Outcome : Type :=
| Fatal (err : error)
| Panicked (msg : string)
| Watching (g : Globals).

Definition nilDereference : string :=
  "runtime error: invalid memory address or nil pointer dereference".

(** [watch], main.go 87-174. *)
Definition watch (c : Context) : list StartupCall * Outcome :=
  let srcPath := GlobalString c "directory" in
  let destPath := GlobalString c "destination" in
  let machineName := GlobalString c "machine" in
  let machineUser := GlobalString c "user" in
  let machineConfigPath := GlobalString c "machine-path" in
  match loadConfig machineConfigPath machineName with
  | inl err => ([], Fatal err)
  | inr machineConfig =>
      let keyPath :=
        filepath_Join ext
          [getMachineConfigDir machineConfigPath machineName; "id_rsa"] in
      match loadPEM (ioutil_ReadFile ext) (ssh_ParsePrivateKey ext)
              {| key := None |} keyPath with
      | (Some err, _) => ([], Fatal err)
      | (None, kc) =>
          let sshConfig := {| User := machineUser; Auth := kc |} in
          (* machineConfig.Driver.SSHPort, main.go 118, on the pointer *)
          match machineConfig with
          | None => ([], Panicked nilDereference)
          | Some machineConfig =>
          let sshPort :=
            if decide (SSHPort machineConfig ≠ 0%Z)
            then SSHPort machineConfig else 22%Z in
          let ip :=
            if decide (IPAddress machineConfig ≠ "")
            then IPAddress machineConfig else "127.0.0.1" in
          let addr := ip +:+ ":" +:+ fmt_d ext sshPort in
          match ssh_Dial ext "tcp" addr sshConfig with
          | inl err => ([DidDial "tcp" addr machineUser], Fatal err)
          | inr sshClient =>
              (* ftp, err := sftp.NewClient(sshClient); rsftp = ftp *)
              let ftp :=
                match sftp_NewClient ext sshClient with
                | inl _ => None
                | inr client => Some client
                end in
              let g :=
                {| srcPath := srcPath; destPath := destPath;
                   machineName := machineName;
                   machineConfigPath := machineConfigPath;
                   machineUser := machineUser; rsftp := ftp |} in
              let sofar := [DidDial "tcp" addr machineUser; DidNewClient] in
              (* watcher, err := fsnotify.NewWatcher() *)
              match fsnotify_NewWatcher ext with
              | inl err => (sofar ++ [DidNewWatcher], Fatal err)%list
              | inr watcher =>
                  let dir := GlobalString c "directory" in
                  let calls :=
                    (sofar ++ [DidNewWatcher; GoEventLoop; GoErrorLoop;
                               DidWatch dir])%list in
                  match watcher_Watch ext watcher dir with
                  | Some err => (calls, Fatal err)
                  | None => (calls, Watching g)
                  end
              end
          end
          end
      end
  end.

(** The event loop, main.go 148-150: [go handleEvent(ev, errorChan)]
    against the session and destination of the package variables. *)
Definition onEvent {File Handle : Type} (g : Globals) (ev : FileEvent)
    : option SftpClient * Prog File Handle :=
  (rsftp g, handleEvent (destPath g) ev).

(** How the process ends or stays: a usage error of the flag parser, the
    error of [app.Before], or the action. *)
Inductive Ran : Type :=
| UsageError
| BeforeFailed (err : error)
| Started (calls : list StartupCall) (o : Outcome).

(** [app.Run(os.Args)] with [Before = checkFlags] and [Action = watch]:
    the action runs only when the before hook returns nil. *)
Definition main (args : list Arg) : Ran :=
  let machinePath :=
    filepath_Join ext [os_Getenv ext "HOME"; ".docker"; "machines"] in
  match newContext (appFlags machinePath) args with
  | None => UsageError
  | Some c =>
      match result (checkFlags c) with
      | Some err => BeforeFailed err
      | None => let '(calls, o) := watch c in Started calls o
      end
  end.

End Startup.
Arguments Globals : clear implicits.
Arguments ClientConfig : clear implicits.
Arguments Externals : clear implicits.
Arguments Outcome : clear implicits.
Arguments Ran : clear implicits.

End Startup.

(** ** [strip] (the keychain file, lines 11-13) *)
Module Strings.

(** A Go string read rune by rune, as [strings.TrimFunc] reads it (a byte
    that is no valid UTF-8 reads as U+FFFD). *)
Definition runes : Type := list Z.

(** [unicode.IsSpace]: the Latin-1 spaces and the White_Space code points
    beyond them. *)
Definition IsSpace (r : Z) : bool :=
  ((9 <=? r) && (r <=? 13) || (r =? 32) || (r =? 133) || (r =? 160)
   || (r =? 5760) || (8192 <=? r) && (r <=? 8202) || (r =? 8232)
   || (r =? 8233) || (r =? 8239) || (r =? 8287) || (r =? 12288))%Z.

(** [strings.TrimLeftFunc]: drop runes from the front while [f] holds. *)
Fixpoint TrimLeftFunc (f : Z -> bool) (s : runes) : runes :=
  match s with
  | [] => []
  | r :: t => if f r then TrimLeftFunc f t else s
  end.

(** [strings.TrimRightFunc]: the same from the back. *)
Definition TrimRightFunc (f : Z -> bool) (s : runes) : runes :=
  rev (TrimLeftFunc f (rev s)).

(** [strings.TrimFunc(s, f)] is
    [TrimRightFunc(TrimLeftFunc(s, f), f)]. *)
Definition TrimFunc (f : Z -> bool) (s : runes) : runes :=
  TrimRightFunc f (TrimLeftFunc f s).

(** [strings.Trim(s, cutset)]: unchanged for an empty string or an empty
    cutset, otherwise trimmed of the runes that occur in the cutset. *)
Definition Trim (s cutset : runes) : runes :=
  match s, cutset with
  | [], _ | _, [] => s
  | _, _ => TrimFunc (fun r => bool_decide (r ∈ cutset)) s
  end.

(** [strings.TrimSpace] *)
Definition TrimSpace (s : runes) : runes := TrimFunc IsSpace s.

(** ["\n"] *)
Definition newline : runes := [10%Z].

(** [strip], the keychain file 11-13. *)
Definition strip (v : runes) : runes := TrimSpace (Trim v newline).

End Strings.

(** ** Concrete scenarios *)
Module Scenario.
Import Fsnotify Sync.

Definition hello : bytes := String.list_byte_of_string "hello".

(** Watch root /src holding notes.txt, and an empty remote machine. *)
Definition notesWorld : MemWorld :=
  {| localFS := {[ "/src/notes.txt" := Readable hello ]};
     remoteFS := ∅; noCreate := ∅; noWrite := ∅ |}.

Definition notesCreated : FileEvent :=
  {| Name := "/src/notes.txt"; kind := Created |}.

Definition notesModified : FileEvent :=
  {| Name := "/src/notes.txt"; kind := Modified |}.

Definition notesDeleted : FileEvent :=
  {| Name := "/src/notes.txt"; kind := Deleted |}.

(** An event for a file that is no longer there. *)
Definition goneCreated : FileEvent :=
  {| Name := "/src/gone.txt"; kind := Created |}.

(** Two local files, for two handlers running at once. *)
Definition abWorld : MemWorld :=
  {| localFS := {[ "a.txt" := Readable (String.list_byte_of_string "A");
                   "b.txt" := Readable (String.list_byte_of_string "B") ]};
     remoteFS := ∅; noCreate := ∅; noWrite := ∅ |}.

Definition aModified : FileEvent := {| Name := "a.txt"; kind := Modified |}.
Definition bModified : FileEvent := {| Name := "b.txt"; kind := Modified |}.

(** The two goroutines taking turns. *)
Definition alternate : list bool :=
  [false; true; false; true; false; true; false; true; false; true;
   false; true].

(** A start-up in which everything succeeds except the opening of the
    SFTP sub-session over the dialled connection. *)
Definition sftpRefused : Startup.Externals unit unit unit unit unit :=
  {| Startup.filepath_Join := fun parts => foldr (fun a b =>
         if decide (b = "") then a else a +:+ "/" +:+ b) "" parts;
     Startup.os_Getenv := fun _ => "/home/dev";
     Startup.os_OpenConfig := fun _ => inr tt;
     Startup.json_Decode := fun _ =>
       inr (Some {| Startup.IPAddress := "192.168.99.100";
                    Startup.SSHPort := 22 |});
     Startup.ioutil_ReadFile := fun _ => inr [];
     Startup.ssh_ParsePrivateKey := fun _ => inr tt;
     Startup.fmt_d := pretty;
     Startup.ssh_Dial := fun _ _ _ => inr tt;
     Startup.sftp_NewClient := fun _ => inl "ssh: subsystem request failed";
     Startup.fsnotify_NewWatcher := inr tt;
     Startup.watcher_Watch := fun _ _ => None |}.

(** machine-sync -d /src -m dev -p /dest *)
Definition commandLine : list Cli.Arg :=
  [ Cli.StringArg "d" "/src"; Cli.StringArg "m" "dev";
    Cli.StringArg "p" "/dest" ].

End Scenario.

(** ** The goroutines of [watch]: the event loop, the error loop and the
    handlers they start *)
Module Pool.
Import Fsnotify Sync.

(** What the two channels of the watcher deliver. *)
Inductive WatcherMsg : Type :=
| Event (ev : FileEvent)
| WatcherError (err : error).

(** The events among the messages. *)
Definition events (msgs : list WatcherMsg) : list FileEvent :=
  omap (fun msg => match msg with
                   | Event ev => Some ev
                   | WatcherError _ => None
                   end) msgs.

(** The event loop, main.go 145-156: one [go handleEvent(ev, errorChan)]
    for each event, a debug line and nothing else for a watcher error; the
    goroutines started, in the order of the events. *)
Definition eventLoop {File Handle : Type} (destPath : string)
    (msgs : list WatcherMsg) : list (Prog File Handle) :=
  omap (fun msg => match msg with
                   | Event ev => Some (handleEvent destPath ev)
                   | WatcherError _ => None
                   end) msgs.

(** The error loop, main.go 158-165, once it has received everything that
    is on the channel: the lines it logs at error level, and the machine
    with the channel empty. *)
Definition errorLoop {W : Type} (m : Machine W) : list string * Machine W :=
  (map (fun err => "error during sync: " +:+ err) (errorChan m),
   {| world := world m; mutex := mutex m; errorChan := [] |}).

Section Pool.
Context {W File Handle : Type} `{S : Sys W File Handle}.

(** Any number of goroutines under a schedule of indices: the pick of a
    goroutine that is finished, blocked or not there is skipped.  The
    result is the trace, each action with the goroutine that performed
    it, what is left of each goroutine, and the machine. *)
Fixpoint runPool (sched : list nat) (ps : list (Prog File Handle))
    (m : Machine W)
    : list (nat * Action File Handle) * (list (Prog File Handle) * Machine W) :=
  match sched with
  | [] => ([], (ps, m))
  | i :: s =>
      match ps !! i with
      | Some p =>
          match step p m with
          | Some (a, p1, m1) =>
              let '(t, r) := runPool s (<[i := p1]> ps) m1 in ((i, a) :: t, r)
          | None => runPool s ps m
          end
      | None => runPool s ps m
      end
  end.

End Pool.

(** The actions of goroutine [i] in a trace of the pool. *)
Definition actionsOf {File Handle : Type} (i : nat)
    (t : list (nat * Action File Handle)) : list (Action File Handle) :=
  omap (fun ia => if decide (ia.1 = i) then Some ia.2 else None) t.

(** A call that touches neither the mutex nor the error channel. *)
Definition quietCall {File Handle R : Type} (c : Call File Handle R) : bool :=
  match c with
  | Lock | Unlock | Send _ => false
  | _ => true
  end.

(** A program none of whose calls, on any path through it, touches the
    mutex or the error channel. *)
Fixpoint Quiet {File Handle : Type} (p : Prog File Handle) : Prop :=
  match p with
  | Return => True
  | Bind c k => quietCall c = true /\ forall r, Quiet (k r)
  end.

(** A program that is over after at most [n] calls. *)
Fixpoint Within {File Handle : Type} (n : nat) (p : Prog File Handle)
    : Prop :=
  match p with
  | Return => True
  | Bind c k =>
      match n with
      | 0 => False
      | S n' => forall r, Within n' (k r)
      end
  end.

(** A call of a program over the in-memory world that, as far as the
    remote machine goes, concerns the one path [a]. *)
Definition confinedCall (a : string) {R : Type}
    (c : Call LocalFile string R) : Prop :=
  match c with
  | Infof _ | LogError _ | Open _ | ReadAll _ => True
  | Remove path | Create path => path = a
  | FileWrite h _ => h = a
  | Lock | Unlock | Send _ => False
  end.

(** The answers the in-memory world can give to a call confined to [a]:
    a create hands back the path as the handle. *)
Definition possibleAnswer (a : string) {R : Type}
    (c : Call LocalFile string R) : R -> Prop :=
  match c in Call _ _ R return R -> Prop with
  | Create _ => fun r => match r with inl _ => True | inr h => h = a end
  | _ => fun _ => True
  end.

(** A program that stays with the remote path [a] whatever the in-memory
    world answers. *)
Fixpoint Confined (a : string) (p : Prog LocalFile string) : Prop :=
  match p with
  | Return => True
  | Bind c k =>
      confinedCall a c /\ forall r, possibleAnswer a c r -> Confined a (k r)
  end.

(** Two in-memory worlds that look the same from the remote path [a]. *)
Definition agree (a : string) (w1 w2 : MemWorld) : Prop :=
  localFS w1 = localFS w2 /\ noCreate w1 = noCreate w2 /\
  noWrite w1 = noWrite w2 /\ remoteFS w1 !! a = remoteFS w2 !! a.

End Pool.
(** ** A burst of watcher messages *)
Module Burst.
Import Fsnotify Sync Pool.

(** Two modify events with a watcher error between them. *)
Definition msgs : list WatcherMsg :=
  [Event Scenario.aModified; WatcherError "inotify: queue overflow";
   Event Scenario.bModified].

(** Seven turns for each of the two handlers, taken alternately. *)
Definition turns : list nat := [0; 1; 0; 1; 0; 1; 0; 1; 0; 1; 0; 1; 0; 1].

(** A remote copy of notes.txt, and a local notes.txt that opens but
    cannot be read. *)
Definition staleWorld : MemWorld :=
  {| localFS := {[ "notes.txt" := Unreadable "read notes.txt: is a directory" ]};
     remoteFS := {[ "/dest/notes.txt" := Scenario.hello ]};
     noCreate := ∅; noWrite := ∅ |}.

Definition notesTouched : FileEvent :=
  {| Name := "notes.txt"; kind := Modified |}.

Definition notesRemoved : FileEvent :=
  {| Name := "notes.txt"; kind := Deleted |}.

End Burst.

(** ** The methods of the keychain (the keychain file, lines 19-29) *)
Module Signing.
Import Keychain.

Section Signing.
Context {Signer PublicKey Signature Rand : Type}.

(** The two methods of the [ssh.Signer] the keychain holds; [Sign] hands
    back Go's pair of a signature and an error. *)
Variable signer_PublicKey : Signer -> PublicKey.
Variable signer_Sign :
  Signer -> Rand -> bytes -> option Signature * option error.

(** [(k *keychain) PublicKey()]; a method call on the nil key panics,
    which is [None]. *)
Definition keychain_PublicKey (k : keychain Signer) : option PublicKey :=
  match key k with
  | Some s => Some (signer_PublicKey s)
  | None => None
  end.

(** [(k *keychain) Sign(rand, data)]: the pair returned, or [None] for
    the panic on a nil key. *)
Definition keychain_Sign (k : keychain Signer) (rand : Rand) (data : bytes)
    : option (option Signature * option error) :=
  match key k with
  | None => None
  | Some s =>
      let '(signature, err) := signer_Sign s rand data in
      match err with
      | Some e => Some (None, Some e)
      | None => Some (signature, None)
      end
  end.

End Signing.

End Signing.

(** ** What [watch] connects to *)
Module Target.
Import Cli Startup.

Section Target.
Context {OsFile Signer SshClient SftpClient Watcher : Type}.
Variable ext : Externals OsFile Signer SshClient SftpClient Watcher.

(** The address of a decoded config: its address and port, 127.0.0.1 and
    22 where the config has none. *)
Definition dialAddr (cfg : MachineConfig) : string :=
  (if decide (IPAddress cfg = "") then "127.0.0.1" else IPAddress cfg)
  +:+ ":" +:+
  fmt_d ext (if decide (SSHPort cfg = 0%Z) then 22%Z else SSHPort cfg).

(** The key file of the machine the flags name. *)
Definition keyPath (c : Context) : string :=
  filepath_Join ext
    [getMachineConfigDir ext (GlobalString c "machine-path")
       (GlobalString c "machine"); "id_rsa"].

(** Every call of a start-up that gets as far as watching, in order. *)
Definition allCalls (c : Context) (cfg : MachineConfig) : list StartupCall :=
  [DidDial "tcp" (dialAddr cfg) (GlobalString c "user"); DidNewClient;
   DidNewWatcher; GoEventLoop; GoErrorLoop;
   DidWatch (GlobalString c "directory")].

End Target.

End Target.

(** ** Start-up scenarios *)
Module Boot.

(** A machine whose config.json names neither address nor port, with
    every start-up call succeeding. *)
Definition bareConfig : Startup.Externals unit unit unit unit unit :=
  {| Startup.filepath_Join := Startup.filepath_Join Scenario.sftpRefused;
     Startup.os_Getenv := fun _ => "/home/dev";
     Startup.os_OpenConfig := fun _ => inr tt;
     Startup.json_Decode := fun _ =>
       inr (Some {| Startup.IPAddress := ""; Startup.SSHPort := 0 |});
     Startup.ioutil_ReadFile := fun _ => inr [];
     Startup.ssh_ParsePrivateKey := fun _ => inr tt;
     Startup.fmt_d := pretty;
     Startup.ssh_Dial := fun _ _ _ => inr tt;
     Startup.sftp_NewClient := fun _ => inr tt;
     Startup.fsnotify_NewWatcher := inr tt;
     Startup.watcher_Watch := fun _ _ => None |}.

(** The same machine with a config.json that holds null: the decoder
    reports no error and leaves the config pointer nil. *)
Definition nullConfig : Startup.Externals unit unit unit unit unit :=
  {| Startup.filepath_Join := Startup.filepath_Join Scenario.sftpRefused;
     Startup.os_Getenv := fun _ => "/home/dev";
     Startup.os_OpenConfig := fun _ => inr tt;
     Startup.json_Decode := fun _ => inr None;
     Startup.ioutil_ReadFile := fun _ => inr [];
     Startup.ssh_ParsePrivateKey := fun _ => inr tt;
     Startup.fmt_d := pretty;
     Startup.ssh_Dial := fun _ _ _ => inr tt;
     Startup.sftp_NewClient := fun _ => inr tt;
     Startup.fsnotify_NewWatcher := inr tt;
     Startup.watcher_Watch := fun _ _ => None |}.

(** machine-sync -m dev -p /dest -D, with no directory. *)
Definition noDirectory : list Cli.Arg :=
  [ Cli.StringArg "m" "dev"; Cli.StringArg "p" "/dest";
    Cli.BoolArg "D" true ].

(** machine-sync -d /src -m dev -p /dest -D *)
Definition debugLine : list Cli.Arg :=
  [ Cli.StringArg "d" "/src"; Cli.StringArg "m" "dev";
    Cli.StringArg "p" "/dest"; Cli.BoolArg "D" true ].

(** The flags of [Scenario.commandLine]. *)
Definition context : Cli.Context :=
  Cli.setString "destination" "/dest"
    (Cli.setString "machine" "dev"
       (Cli.setString "directory" "/src"
          (Cli.defaults (Cli.appFlags "/home/dev/.docker/machines")))).

(** The package variables after a start-up from [context]. *)
Definition running : Startup.Globals unit :=
  {| Startup.srcPath := "/src"; Startup.destPath := "/dest";
     Startup.machineName := "dev";
     Startup.machineConfigPath := "/home/dev/.docker/machines";
     Startup.machineUser := "root"; Startup.rsftp := Some tt |}.

End Boot.

(** * Properties *)

Import Fsnotify Sync.

(** ** Traces of [handleEvent] against any local and remote system *)

Section HandleEventTraces.
Context {W File Handle : Type} `{S : Sys W File Handle}.

Lemma exec_step (p p1 : Prog File Handle) (m m1 : Machine W) a :
  step p m = Some (a, p1, m1) ->
  exec p m = (a :: (exec p1 m1).1, (exec p1 m1).2).
Proof.
  destruct p as [|R c k]; simpl; [discriminate|].
  destruct (perform c m) as [[r m2]|]; [|discriminate].
  intros [= <- <- <-]. by destruct (exec (k r) m2).
Qed.

Lemma delete_run (destPath : string) (evt : FileEvent) (m : Machine W) :
  IsDelete evt = true ->
  DeleteRun (remotePath destPath evt) (exec (handleEvent destPath evt) m).1.
Proof.
  intros Hd. unfold handleEvent. rewrite Hd. simpl.
  destruct (sftp_Remove _ _) as [[err|] w1]; simpl; constructor.
Qed.

Lemma update_run (destPath : string) (evt : FileEvent) (m : Machine W) :
  IsDelete evt = false ->
  UpdateRun (Name evt) (remotePath destPath evt)
    (exec (handleEvent destPath evt) m).1.
Proof.
  intros Hd. unfold handleEvent. rewrite Hd. simpl.
  destruct (os_Open _ _) as [[err|f] w1]; simpl; [constructor|].
  destruct (sftp_Remove _ _) as [rm w2]; simpl.
  destruct (sftp_Create _ _) as [[err|h] w3]; simpl; [constructor|].
  destruct (ioutil_ReadAll _ _) as [[err|data] w4]; simpl; [constructor|].
  destruct (file_Write _ _ _) as [[err|] w5]; simpl; constructor.
Qed.

End HandleEventTraces.

Section HandleEventClaims.
Context {W File Handle : Type} `{S : Sys W File Handle}.

(** A handler neither takes nor releases the mutex. *)
Lemma handleEvent_no_mutex (destPath : string) (evt : FileEvent)
    (m : Machine W) :
  mutexCalls (exec (handleEvent destPath evt) m).1 = [] /\
  mutex (exec (handleEvent destPath evt) m).2 = mutex m.
Proof.
  unfold handleEvent. destruct (IsDelete evt); simpl.
  - destruct (sftp_Remove _ _) as [[err|] w1]; simpl; done.
  - destruct (os_Open _ _) as [[err|f] w1]; simpl; [done|].
    destruct (sftp_Remove _ _) as [rm w2]; simpl.
    destruct (sftp_Create _ _) as [[err|h] w3]; simpl; [done|].
    destruct (ioutil_ReadAll _ _) as [[err|data] w4]; simpl; [done|].
    destruct (file_Write _ _ _) as [[err|] w5]; simpl; done.
Qed.

(** C5: a Deleted event on path P issues exactly one remote remove, against
    destPath + "/" + P, and no create and no write; when the remove fails
    the error is logged once and the handler ends there, without a second
    attempt. *)
Theorem deleted_event_one_remove (destPath : string) (evt : FileEvent)
    (m : Machine W) :
  kind evt = Deleted ->
  let t := (exec (handleEvent destPath evt) m).1 in
  let path := destPath +:+ "/" +:+ Name evt in
  remoteOps t = [OpRemove path] /\
  DeleteRun path t /\
  errorsLogged t =
    match (sftp_Remove path (world m)).1 with Some _ => 1 | None => 0 end.
Proof.
  intros Hk t path.
  assert (Hd : IsDelete evt = true) by (unfold IsDelete; by rewrite Hk).
  split_and!.
  - subst t. unfold handleEvent. rewrite Hd. simpl.
    destruct (sftp_Remove _ _) as [[err|] w1]; done.
  - by apply delete_run.
  - subst t path. unfold handleEvent, remotePath. rewrite Hd. simpl.
    destruct (sftp_Remove _ _) as [[err|] w1]; done.
Qed.

(** C6: a Created, Modified or Renamed event runs, in this order, the
    local open, a remote remove whose result is not looked at, the remote
    create, the read of the whole local file and the write of those bytes
    to the created file; the first failure of open, create, read or write
    is logged and ends the run, so nothing later is issued. *)
Theorem update_event_steps_in_order (destPath : string) (evt : FileEvent)
    (m : Machine W) :
  kind evt = Created \/ kind evt = Modified \/ kind evt = Renamed ->
  UpdateRun (Name evt) (destPath +:+ "/" +:+ Name evt)
    (exec (handleEvent destPath evt) m).1.
Proof.
  intros Hk. apply update_run.
  unfold IsDelete. by destruct Hk as [->|[->| ->]].
Qed.

(** The reports of one handler, for any local and remote system: a failed
    handling is logged exactly once by the handler itself and a successful
    one not at all, no call of the run is a send on the error channel, and
    an update whose local file cannot be opened issues no remote operation
    and logs one error. *)
Theorem failure_logged_once_not_sent (destPath : string) (evt : FileEvent)
    (m : Machine W) :
  let r := exec (handleEvent destPath evt) m in
  sends r.1 = [] /\
  errorChan r.2 = errorChan m /\
  errorsLogged r.1 =
    (if handlingFailed (IsDelete evt) r.1 then 1 else 0) /\
  (forall err, IsDelete evt = false ->
     (os_Open (Name evt) (world m)).1 = inl err ->
     remoteOps r.1 = [] /\ errorsLogged r.1 = 1).
Proof.
  unfold handleEvent. destruct (IsDelete evt); simpl.
  - destruct (sftp_Remove _ _) as [[err|] w1]; simpl; done.
  - destruct (os_Open _ _) as [[err|f] w1]; simpl; [done|].
    destruct (sftp_Remove _ _) as [rm w2]; simpl.
    destruct (sftp_Create _ _) as [[err|h] w3]; simpl;
      [by destruct rm|].
    destruct (ioutil_ReadAll _ _) as [[err|data] w4]; simpl;
      [by destruct rm|].
    destruct (file_Write _ _ _) as [[err|] w5]; simpl; by destruct rm.
Qed.

End HandleEventClaims.

(** ** [handleEvent] on the in-memory world *)

Lemma handle_keeps_local (destPath : string) (evt : FileEvent)
    (m : Machine MemWorld) :
  let w := world (handle destPath evt m).2 in
  localFS w = localFS (world m) /\ noCreate w = noCreate (world m) /\
  noWrite w = noWrite (world m).
Proof.
  unfold handle, handleEvent. destruct (IsDelete evt); simpl.
  - unfold mem_Remove. destruct (remoteFS _ !! _); simpl; done.
  - unfold mem_Open. destruct (localFS _ !! _) as [f|]; simpl; [|done].
    unfold mem_Remove. destruct (remoteFS _ !! _); simpl;
      unfold mem_Create; simpl; (case_decide; simpl; [done|]);
      (destruct f as [data|err]; simpl; [|done]);
      unfold mem_Write; simpl; (case_decide; simpl; [done|]);
      rewrite lookup_insert_eq; simpl; done.
Qed.

Lemma handle_update_remote (destPath : string) (evt : FileEvent)
    (m : Machine MemWorld) :
  IsDelete evt = false ->
  remoteFS (world (handle destPath evt m).2) =
  afterUpdate (world m) (Name evt) (remotePath destPath evt).
Proof.
  intros Hd. unfold handle, handleEvent, afterUpdate. rewrite Hd. simpl.
  unfold mem_Open. destruct (localFS _ !! _) as [f|]; simpl; [|done].
  set (path := remotePath destPath evt).
  assert (Hrm : remoteFS (mem_Remove path (world m)).2 =
                delete path (remoteFS (world m)) /\
                noCreate (mem_Remove path (world m)).2 = noCreate (world m) /\
                noWrite (mem_Remove path (world m)).2 = noWrite (world m)).
  { unfold mem_Remove.
    destruct (remoteFS _ !! _) eqn:Hr; simpl; [done|].
    by rewrite delete_id. }
  destruct (mem_Remove path (world m)) as [rm w2]. simpl in *.
  destruct Hrm as (Hr & Hc & Hw).
  unfold mem_Create. rewrite Hc, Hr. case_decide; simpl; [done|].
  rewrite insert_delete_eq.
  destruct f as [data|err]; simpl; [|done].
  unfold mem_Write. simpl. rewrite Hw. case_decide; simpl; [done|].
  rewrite lookup_insert_eq. simpl.
  by rewrite drop_nil, app_nil_r, insert_insert_eq.
Qed.

Lemma handle_delete_remote (destPath : string) (evt : FileEvent)
    (m : Machine MemWorld) :
  IsDelete evt = true ->
  remoteFS (world (handle destPath evt m).2) =
  delete (remotePath destPath evt) (remoteFS (world m)).
Proof.
  intros Hd. unfold handle, handleEvent. rewrite Hd. simpl.
  unfold mem_Remove. destruct (remoteFS _ !! _) eqn:Hr; simpl; [done|].
  by rewrite delete_id.
Qed.

Lemma afterUpdate_idempotent (w1 w2 : MemWorld) (name path : string) :
  localFS w2 !! name = localFS w1 !! name ->
  noCreate w2 = noCreate w1 -> noWrite w2 = noWrite w1 ->
  remoteFS w2 = afterUpdate w1 name path ->
  afterUpdate w2 name path = remoteFS w2.
Proof.
  intros Hl Hc Hw Hr. unfold afterUpdate in *. rewrite Hl, Hc, Hw, Hr.
  destruct (localFS w1 !! name) as [f|]; [|done].
  case_decide; [by rewrite delete_delete_eq|].
  destruct f as [data|err]; [|by rewrite insert_insert_eq].
  case_decide; by rewrite insert_insert_eq.
Qed.

Lemma mem_Remove_keeps (path : string) (w : MemWorld) :
  let w2 := (mem_Remove path w).2 in
  localFS w2 = localFS w /\ noCreate w2 = noCreate w /\
  noWrite w2 = noWrite w /\ remoteFS w2 = delete path (remoteFS w).
Proof.
  unfold mem_Remove. destruct (remoteFS w !! path) eqn:Hr; simpl; [done|].
  by rewrite delete_id.
Qed.

Lemma handle_update_ops (destPath : string) (evt : FileEvent)
    (data : bytes) (m : Machine MemWorld) :
  IsDelete evt = false ->
  localFS (world m) !! Name evt = Some (Readable data) ->
  remotePath destPath evt ∉ noCreate (world m) ->
  remotePath destPath evt ∉ noWrite (world m) ->
  remoteOps (handle destPath evt m).1 =
    [OpRemove (remotePath destPath evt); OpCreate (remotePath destPath evt);
     OpWrite (remotePath destPath evt) data].
Proof.
  intros Hd Hl Hc Hw. unfold handle, handleEvent. rewrite Hd. simpl.
  unfold mem_Open. rewrite Hl. simpl.
  set (path := remotePath destPath evt) in *.
  pose proof (mem_Remove_keeps path (world m)) as (_ & Hc2 & Hw2 & _).
  destruct (mem_Remove path (world m)) as [rm w2]. simpl in *.
  unfold mem_Create. rewrite Hc2, decide_False by done. simpl.
  unfold mem_Write. simpl. rewrite Hw2, decide_False by done.
  rewrite lookup_insert_eq. done.
Qed.

Lemma handle_delete_ops {W File Handle : Type} `{S : Sys W File Handle}
    (destPath : string) (evt : FileEvent) (m : Machine W) :
  IsDelete evt = true ->
  remoteOps (exec (handleEvent destPath evt) m).1 =
    [OpRemove (remotePath destPath evt)].
Proof.
  intros Hd. unfold handleEvent. rewrite Hd. simpl.
  destruct (sftp_Remove _ _) as [[err|] w1]; done.
Qed.

Import Scenario.

(** C2 on the code: the create event for a file that cannot be opened is a
    failed handling, yet the handler, which was handed the error channel,
    sends nothing on it: the channel is still empty after the run and the
    error loop that drains it has no line to log.  The failure is logged
    once, by the handler itself. *)
Lemma failed_event_not_on_error_channel :
  let r := handle "/dest" goneCreated (idle notesWorld) in
  handlingFailed (IsDelete goneCreated) r.1 = true /\
  sends r.1 = [] /\
  errorChan r.2 = [] /\
  (Pool.errorLoop r.2).1 = [] /\
  remoteOps r.1 = [] /\
  errorsLogged r.1 = 1.
Proof. vm_compute. done. Qed.

Lemma failure_logged_once_not_sent_witness :
  let r := handle "/dest" goneCreated (idle notesWorld) in
  sends r.1 = [] /\
  errorChan r.2 = [] /\
  errorsLogged r.1 =
    (if handlingFailed (IsDelete goneCreated) r.1 then 1 else 0) /\
  (forall err, IsDelete goneCreated = false ->
     (mem_Open "/src/gone.txt" notesWorld).1 = inl err ->
     remoteOps r.1 = [] /\ errorsLogged r.1 = 1).
Proof.
  exact (failure_logged_once_not_sent "/dest" goneCreated (idle notesWorld)).
Defined.

Lemma deleted_event_one_remove_witness :
  kind notesDeleted = Deleted /\
  let t := (handle "/dest" notesDeleted (idle notesWorld)).1 in
  remoteOps t = [OpRemove "/dest//src/notes.txt"] /\
  DeleteRun "/dest//src/notes.txt" t /\
  errorsLogged t = 1.
Proof.
  split; [reflexivity|].
  exact (deleted_event_one_remove "/dest" notesDeleted (idle notesWorld)
           eq_refl).
Defined.

Lemma update_event_steps_in_order_witness :
  (kind notesCreated = Created \/ kind notesCreated = Modified \/
   kind notesCreated = Renamed) /\
  UpdateRun "/src/notes.txt" "/dest//src/notes.txt"
    (handle "/dest" notesCreated (idle notesWorld)).1.
Proof.
  split; [left; reflexivity|].
  exact (update_event_steps_in_order "/dest" notesCreated (idle notesWorld)
           (or_introl eq_refl)).
Defined.

(** C3 as stated fails: with watch root /src and destination /dest, the
    create event for /src/notes.txt leaves nothing at /dest/notes.txt; the
    bytes are at /dest//src/notes.txt, the event path appended whole. *)
Lemma notes_not_at_relativized_path :
  let m1 := (handle "/dest" notesCreated (idle notesWorld)).2 in
  remoteFS (world m1) !! "/dest/notes.txt" = None /\
  remoteFS (world m1) !! "/dest//src/notes.txt" = Some hello.
Proof. vm_compute. done. Qed.

(** C3, as the code has it: the remote path is destPath, a slash and the
    event path as the watcher delivered it, with nothing taken off.  A
    create event for a readable local file leaves its bytes at that path
    (when the server accepts the create and the write), and a following
    delete event for the same path removes the file at that same path. *)
Theorem remote_path_appends_event_path (destPath name : string)
    (data : bytes) (m : Machine MemWorld) :
  let path := destPath +:+ "/" +:+ name in
  let created := handle destPath {| Name := name; kind := Created |} m in
  let deleted :=
    handle destPath {| Name := name; kind := Deleted |} created.2 in
  localFS (world m) !! name = Some (Readable data) ->
  path ∉ noCreate (world m) ->
  path ∉ noWrite (world m) ->
  remoteOps created.1 =
    [OpRemove path; OpCreate path; OpWrite path data] /\
  remoteFS (world created.2) !! path = Some data /\
  remoteOps deleted.1 = [OpRemove path] /\
  remoteFS (world deleted.2) !! path = None.
Proof.
  intros path created deleted Hl Hc Hw. split_and!.
  - by apply handle_update_ops.
  - subst created. rewrite handle_update_remote by done.
    unfold afterUpdate, remotePath. simpl. fold path. rewrite Hl.
    by rewrite !decide_False, lookup_insert_eq.
  - by apply handle_delete_ops.
  - subst deleted. rewrite handle_delete_remote by done.
    apply lookup_delete_eq.
Qed.

Lemma remote_path_appends_event_path_witness :
  let path := "/dest//src/notes.txt" in
  let created := handle "/dest" notesCreated (idle notesWorld) in
  let deleted := handle "/dest" notesDeleted created.2 in
  localFS notesWorld !! "/src/notes.txt" = Some (Readable hello) /\
  (path ∉ noCreate notesWorld) /\
  (path ∉ noWrite notesWorld) /\
  remoteOps created.1 =
    [OpRemove path; OpCreate path; OpWrite path hello] /\
  remoteFS (world created.2) !! path = Some hello /\
  remoteOps deleted.1 = [OpRemove path] /\
  remoteFS (world deleted.2) !! path = None.
Proof.
  assert (Hl : localFS notesWorld !! "/src/notes.txt" = Some (Readable hello))
    by reflexivity.
  assert (Hc : "/dest//src/notes.txt" ∉ noCreate notesWorld)
    by (simpl; apply not_elem_of_empty).
  assert (Hw : "/dest//src/notes.txt" ∉ noWrite notesWorld)
    by (simpl; apply not_elem_of_empty).
  split; [exact Hl|]. split; [exact Hc|]. split; [exact Hw|].
  exact (remote_path_appends_event_path "/dest" "/src/notes.txt" hello
           (idle notesWorld) Hl Hc Hw).
Defined.

(** C7: handling the same Modified event a second time, the local file
    holding what it held at the first run (whatever else changed locally),
    leaves the remote machine as the first run left it; in particular the
    file at the mapped path has the same bytes after either run. *)
Theorem modified_twice_same_bytes (destPath : string) (evt : FileEvent)
    (m : Machine MemWorld) (local' : gmap string LocalFile) :
  kind evt = Modified ->
  local' !! Name evt = localFS (world m) !! Name evt ->
  let path := destPath +:+ "/" +:+ Name evt in
  let m1 := (handle destPath evt m).2 in
  let m2 :=
    (handle destPath evt (setWorld m1 (setLocal (world m1) local'))).2 in
  remoteFS (world m2) = remoteFS (world m1) /\
  remoteFS (world m2) !! path = remoteFS (world m1) !! path.
Proof.
  intros Hk Hl path m1 m2.
  assert (Hd : IsDelete evt = false) by (unfold IsDelete; by rewrite Hk).
  assert (Heq : remoteFS (world m2) = remoteFS (world m1)).
  { subst m2. rewrite handle_update_remote by done. simpl.
    pose proof (handle_keeps_local destPath evt m) as (_ & Hc & Hw).
    exact (afterUpdate_idempotent (world m) (setLocal (world m1) local')
             (Name evt) (remotePath destPath evt) Hl Hc Hw
             (handle_update_remote destPath evt m Hd)). }
  split; [exact Heq|]. by rewrite Heq.
Qed.

Lemma modified_twice_same_bytes_witness :
  let m1 := (handle "/dest" notesModified (idle notesWorld)).2 in
  let m2 :=
    (handle "/dest" notesModified
       (setWorld m1 (setLocal (world m1) (localFS notesWorld)))).2 in
  kind notesModified = Modified /\
  localFS notesWorld !! "/src/notes.txt" =
    localFS notesWorld !! "/src/notes.txt" /\
  remoteFS (world m2) = remoteFS (world m1) /\
  remoteFS (world m2) !! "/dest//src/notes.txt" =
    remoteFS (world m1) !! "/dest//src/notes.txt".
Proof.
  split; [reflexivity|]. split; [reflexivity|].
  exact (modified_twice_same_bytes "/dest" notesModified (idle notesWorld)
           (localFS notesWorld) eq_refl eq_refl).
Defined.

(** The bytes both runs of the scenario leave at the mapped path. *)
Example modified_twice_hello :
  let m1 := (handle "/dest" notesModified (idle notesWorld)).2 in
  let m2 := (handle "/dest" notesModified m1).2 in
  remoteFS (world m1) !! "/dest//src/notes.txt" = Some hello /\
  remoteFS (world m2) !! "/dest//src/notes.txt" = Some hello.
Proof. vm_compute. done. Qed.

(** C4 on the code: no handler takes the mutex, so under a schedule that
    alternates two handlers their remove, create and write calls on the
    shared session interleave, with the mutex free throughout. *)
Theorem handlers_interleave_without_lock :
  let p := handleEvent "/dest" aModified in
  let q := handleEvent "/dest" bModified in
  let r := run2 alternate p q (idle abWorld) in
  mutexCalls (exec p (idle abWorld)).1 = [] /\
  mutexCalls (exec q (idle abWorld)).1 = [] /\
  mutexCalls (map snd r.1) = [] /\
  mutex r.2 = false /\
  remoteOps2 r.1 =
    [(false, OpRemove "/dest/a.txt"); (true, OpRemove "/dest/b.txt");
     (false, OpCreate "/dest/a.txt"); (true, OpCreate "/dest/b.txt");
     (false, OpWrite "/dest/a.txt" (String.list_byte_of_string "A"));
     (true, OpWrite "/dest/b.txt" (String.list_byte_of_string "B"))].
Proof. vm_compute. done. Qed.

(** ** The keychain *)

(** C9: [loadPEM] returns the error of a failed read or a failed parse and
    leaves the keychain as it was; the key is stored, and nil returned,
    only when the read and the parse both succeeded. *)
Theorem loadPEM_atomic_on_error {Signer : Type}
    (readFile : string -> error + bytes)
    (parseKey : bytes -> error + Signer)
    (k : Keychain.keychain Signer) (file : string) :
  let r := Keychain.loadPEM readFile parseKey k file in
  (forall err, readFile file = inl err -> r = (Some err, k)) /\
  (forall buf err, readFile file = inr buf -> parseKey buf = inl err ->
     r = (Some err, k)) /\
  (forall buf parsed, readFile file = inr buf -> parseKey buf = inr parsed ->
     r = (None, {| Keychain.key := Some parsed |})) /\
  (r.1 <> None -> r.2 = k) /\
  (r.2 <> k -> exists buf parsed,
     readFile file = inr buf /\ parseKey buf = inr parsed /\ r.1 = None /\
     Keychain.key r.2 = Some parsed).
Proof.
  unfold Keychain.loadPEM. split_and!.
  - by intros err ->.
  - by intros buf err -> ->.
  - by intros buf parsed -> ->.
  - destruct (readFile file) as [err|buf]; [done|].
    destruct (parseKey buf) as [err|parsed]; done.
  - destruct (readFile file) as [err|buf]; [done|].
    destruct (parseKey buf) as [err|parsed] eqn:Hp; [done|].
    intros _. by exists buf, parsed.
Qed.

Lemma loadPEM_atomic_on_error_witness :
  let readFile : string -> error + bytes :=
    fun file => if decide (file = "id_rsa") then inr Scenario.hello
                else inl "no such file" in
  let parseKey : bytes -> error + nat :=
    fun _ => inl "ssh: no key found" in
  let k := {| Keychain.key := Some 7 |} in
  let r := Keychain.loadPEM readFile parseKey k "id_rsa" in
  (forall err, readFile "id_rsa" = inl err -> r = (Some err, k)) /\
  (forall buf err, readFile "id_rsa" = inr buf -> parseKey buf = inl err ->
     r = (Some err, k)) /\
  (forall buf parsed, readFile "id_rsa" = inr buf ->
     parseKey buf = inr parsed ->
     r = (None, {| Keychain.key := Some parsed |})) /\
  (r.1 <> None -> r.2 = k) /\
  (r.2 <> k -> exists buf parsed,
     readFile "id_rsa" = inr buf /\ parseKey buf = inr parsed /\
     r.1 = None /\ Keychain.key r.2 = Some parsed).
Proof.
  intros readFile parseKey k.
  exact (loadPEM_atomic_on_error readFile parseKey k "id_rsa").
Defined.

(** On the failing parse of the witness the stored key is still 7. *)
Example loadPEM_parse_failure_keeps_key :
  Keychain.loadPEM
    (fun _ : string => inr Scenario.hello : error + bytes)
    (fun _ : bytes => inl "ssh: no key found" : error + nat)
    {| Keychain.key := Some 7 |} "id_rsa"
  = (Some "ssh: no key found", {| Keychain.key := Some 7 |}).
Proof. reflexivity. Qed.

(** ** Flags *)

Section Flags.
Import Cli.

Lemma checkFlags_result (c : Context) :
  result (checkFlags c) =
    if decide (GlobalString c "directory" = "" \/
               GlobalString c "machine" = "" \/
               GlobalString c "destination" = "" \/
               GlobalString c "user" = "")
    then Some errFlagError else None.
Proof.
  unfold checkFlags, flagError.
  destruct (decide (GlobalString c "directory" = "")) as [Hd|Hd];
    [by rewrite decide_True by auto|].
  destruct (decide (GlobalString c "machine" = "")) as [Hm|Hm];
    [by rewrite decide_True by auto|].
  destruct (decide (GlobalString c "destination" = "")) as [Hp|Hp];
    [by rewrite decide_True by auto|].
  destruct (decide (GlobalString c "user" = "")) as [Hu|Hu];
    [by rewrite decide_True by auto|].
  rewrite decide_False; [done|]. by intros [?|[?|[?|?]]].
Qed.

Lemma checkFlags_user_line (c : Context) :
  "you must specify a user" ∈ logged (checkFlags c) ->
  GlobalString c "user" = "".
Proof.
  unfold checkFlags, flagError.
  repeat case_decide; simpl; try done; intros Hin.
  all: try (apply list_elem_of_singleton in Hin; discriminate).
  by apply elem_of_nil in Hin.
Qed.

Lemma findFlag_user (machinePath n alias value : string) :
  findFlag (appFlags machinePath) n = Some (StringFlag "user" alias value) ->
  n = "user" \/ n = "u".
Proof.
  intros Hf. apply List.find_some in Hf as [Hin Ha].
  simpl in Hin.
  destruct Hin as [H|[H|[H|[H|[H|[H|[]]]]]]]; try discriminate.
  injection H as <- <-. simpl in Ha.
  apply orb_prop in Ha as [Ha|Ha]; apply bool_decide_eq_true in Ha; auto.
Qed.

Lemma GlobalString_setString (c : Context) (name value n : string) :
  GlobalString (setString name value c) n =
    if decide (name = n) then value else GlobalString c n.
Proof.
  unfold GlobalString, setString. simpl.
  case_decide as Hn.
  - subst. by rewrite lookup_insert_eq.
  - by rewrite lookup_insert_ne.
Qed.

(** The user of a parsed command line is the one before parsing, or the
    value of one of its -user / -u settings. *)
Lemma parse_user (machinePath : string) (args : list Arg) (c0 c : Context) :
  parse (appFlags machinePath) args c0 = Some c ->
  GlobalString c "user" = GlobalString c0 "user" \/
  exists n, (n = "user" \/ n = "u") /\
            StringArg n (GlobalString c "user") ∈ args.
Proof.
  revert c0. induction args as [|a rest IH]; intros c0 Hp; cbn [parse] in Hp.
  - left. by injection Hp as <-.
  - destruct a as [n v|n b].
    + destruct (findFlag _ n) as [[name alias value|]|] eqn:Hf; try done.
      destruct (IH _ Hp) as [Heq|(n' & Hn' & Hin)].
      * rewrite GlobalString_setString in Heq. case_decide as Hname.
        -- subst name. right. exists n. split.
           ++ by eapply findFlag_user.
           ++ rewrite Heq. apply list_elem_of_here.
        -- by left.
      * right. exists n'. split; [done|]. by apply list_elem_of_further.
    + destruct (findFlag _ n) as [[|name alias]|] eqn:Hf; try done.
      destruct (IH _ Hp) as [Heq|(n' & Hn' & Hin)].
      * by left.
      * right. exists n'. split; [done|]. by apply list_elem_of_further.
Qed.

End Flags.

(** C8: [checkFlags] returns the flag error exactly when one of directory,
    machine, destination and user is the empty string, and nil when all
    four are set; and when it returns the error, [app.Run] ends there: the
    action [watch] is not run, so nothing is dialled. *)
Theorem checkFlags_fails_iff_a_flag_is_empty
    {OsFile Signer SshClient SftpClient Watcher : Type} (c : Cli.Context) :
  let empty (name : string) := Cli.GlobalString c name = "" in
  let anyEmpty :=
    empty "directory" \/ empty "machine" \/ empty "destination" \/
    empty "user" in
  (Cli.result (Cli.checkFlags c) = Some Cli.errFlagError <-> anyEmpty) /\
  (~ anyEmpty -> Cli.result (Cli.checkFlags c) = None) /\
  (forall (ext : Startup.Externals OsFile Signer SshClient SftpClient Watcher)
          args,
     Cli.newContext
       (Cli.appFlags (Startup.filepath_Join ext
          [Startup.os_Getenv ext "HOME"; ".docker"; "machines"])) args
       = Some c ->
     anyEmpty ->
     Startup.main ext args = Startup.BeforeFailed Cli.errFlagError).
Proof.
  intros empty anyEmpty. subst empty anyEmpty. simpl.
  rewrite checkFlags_result. split_and!.
  - case_decide; split; done.
  - intros Hn. by rewrite decide_False.
  - intros ext args Hc Hany. unfold Startup.main. rewrite Hc.
    rewrite checkFlags_result. by rewrite decide_True.
Qed.

Lemma checkFlags_fails_iff_a_flag_is_empty_witness :
  let machinePath :=
    Startup.filepath_Join Scenario.sftpRefused
      [Startup.os_Getenv Scenario.sftpRefused "HOME"; ".docker"; "machines"] in
  let args := [Cli.StringArg "d" "/src"; Cli.StringArg "m" "dev"] in
  let c :=
    Cli.setString "machine" "dev"
      (Cli.setString "directory" "/src"
         (Cli.defaults (Cli.appFlags machinePath))) in
  Cli.newContext (Cli.appFlags machinePath) args = Some c /\
  Cli.GlobalString c "destination" = "" /\
  Cli.result (Cli.checkFlags c) = Some Cli.errFlagError /\
  Startup.main Scenario.sftpRefused args
    = Startup.BeforeFailed Cli.errFlagError.
Proof.
  intros machinePath args c.
  assert (Hc : Cli.newContext (Cli.appFlags machinePath) args = Some c)
    by reflexivity.
  assert (He : Cli.GlobalString c "destination" = "") by reflexivity.
  destruct (checkFlags_fails_iff_a_flag_is_empty
              (OsFile := unit) (Signer := unit) (SshClient := unit)
              (SftpClient := unit) (Watcher := unit) c)
    as (Hiff & _ & Hmain).
  split; [exact Hc|]. split; [exact He|]. split.
  - apply Hiff. right. right. left. exact He.
  - apply (Hmain Scenario.sftpRefused args Hc). right. right. left. exact He.
Defined.

(** C10: in the flag table of [main] the user flag defaults to "root" and
    directory, machine and destination to the empty string; so a command
    line that parses and never sets -user / -u cannot draw the line
    "you must specify a user": that line is logged only when the command
    line itself sets the user to the empty string. *)
Theorem user_error_needs_explicit_empty_user (machinePath : string)
    (args : list Cli.Arg) (c : Cli.Context) :
  let flags := Cli.appFlags machinePath in
  let userLine := "you must specify a user" in
  (Cli.GlobalString (Cli.defaults flags) "user" = "root" /\
   Cli.GlobalString (Cli.defaults flags) "directory" = "" /\
   Cli.GlobalString (Cli.defaults flags) "machine" = "" /\
   Cli.GlobalString (Cli.defaults flags) "destination" = "") /\
  (Cli.newContext flags args = Some c ->
   (userLine ∈ Cli.logged (Cli.checkFlags c) ->
      exists n, (n = "user" \/ n = "u") /\ Cli.StringArg n "" ∈ args) /\
   ((forall n v, Cli.StringArg n v ∈ args -> n <> "user" /\ n <> "u") ->
      userLine ∉ Cli.logged (Cli.checkFlags c))).
Proof.
  intros flags userLine. split; [done|]. intros Hc.
  assert (Hline : userLine ∈ Cli.logged (Cli.checkFlags c) ->
            exists n, (n = "user" \/ n = "u") /\ Cli.StringArg n "" ∈ args).
  { intros Hin. apply checkFlags_user_line in Hin.
    destruct (parse_user machinePath args _ c Hc) as [Heq|(n & Hn & Harg)].
    - rewrite Hin in Heq. discriminate.
    - exists n. split; [done|]. by rewrite <- Hin. }
  split; [exact Hline|].
  intros Hnone Hin. destruct (Hline Hin) as (n & Hn & Harg).
  destruct (Hnone n "" Harg) as [H1 H2]. by destruct Hn.
Qed.

Lemma user_error_needs_explicit_empty_user_witness :
  let flags := Cli.appFlags "/home/dev/.docker/machines" in
  let args :=
    [Cli.StringArg "d" "/src"; Cli.StringArg "m" "dev";
     Cli.StringArg "p" "/dest"; Cli.StringArg "u" ""] in
  let c :=
    Cli.setString "user" ""
      (Cli.setString "destination" "/dest"
         (Cli.setString "machine" "dev"
            (Cli.setString "directory" "/src" (Cli.defaults flags)))) in
  Cli.newContext flags args = Some c /\
  "you must specify a user" ∈ Cli.logged (Cli.checkFlags c) /\
  exists n, (n = "user" \/ n = "u") /\ Cli.StringArg n "" ∈ args.
Proof.
  intros flags args c.
  assert (Hc : Cli.newContext flags args = Some c) by reflexivity.
  assert (Hin : "you must specify a user" ∈ Cli.logged (Cli.checkFlags c))
    by (vm_compute; apply list_elem_of_here).
  split; [exact Hc|]. split; [exact Hin|].
  exact (proj1 (proj2 (user_error_needs_explicit_empty_user
                         "/home/dev/.docker/machines" args c) Hc) Hin).
Defined.

(** Without -user / -u the scenario's command line passes the check. *)
Example omitted_user_passes_check :
  match Cli.newContext (Cli.appFlags "/home/dev/.docker/machines")
          Scenario.commandLine with
  | Some c => Cli.checkFlags c =
      {| Cli.logged := []; Cli.debugLevel := false; Cli.result := None |} /\
      Cli.GlobalString c "user" = "root"
  | None => False
  end.
Proof. vm_compute. done. Qed.

(** ** Start-up *)

(** [watch] never looks at the error of [sftp.NewClient]: when the calls
    around it succeed the watch starts, with a nil session if the
    sub-session could not be opened. *)
Lemma watch_ignores_NewClient_error
    {OsFile Signer SshClient SftpClient Watcher : Type}
    (ext : Startup.Externals OsFile Signer SshClient SftpClient Watcher)
    (c : Cli.Context) cfg signer client watcher err :
  Startup.loadConfig ext (Cli.GlobalString c "machine-path")
    (Cli.GlobalString c "machine") = inr (Some cfg) ->
  (forall f, Startup.ioutil_ReadFile ext f = inr []) ->
  Startup.ssh_ParsePrivateKey ext [] = inr signer ->
  (forall n a cc, Startup.ssh_Dial ext n a cc = inr client) ->
  Startup.sftp_NewClient ext client = inl err ->
  Startup.fsnotify_NewWatcher ext = inr watcher ->
  Startup.watcher_Watch ext watcher (Cli.GlobalString c "directory") = None ->
  exists calls g,
    Startup.watch ext c = (calls, Startup.Watching g) /\
    Startup.rsftp g = None /\
    Startup.DidWatch (Cli.GlobalString c "directory") ∈ calls.
Proof.
  intros Hcfg Hread Hparse Hdial Hnew Hwatcher Hwatch.
  unfold Startup.watch. rewrite Hcfg. unfold Keychain.loadPEM.
  rewrite Hread, Hparse, Hdial, Hnew, Hwatcher, Hwatch.
  eexists _, _. split; [reflexivity|]. split; [reflexivity|].
  simpl. do 5 apply list_elem_of_further. apply list_elem_of_here.
Qed.

(** C1 on the code: with a connection that dials but refuses the SFTP
    sub-session, the process does not exit: it goes on to create the
    watcher, start both goroutines and watch /src with a nil session, and
    every event is then handled against that nil session. *)
Theorem refused_sftp_session_is_not_fatal :
  exists g,
    Startup.main Scenario.sftpRefused Scenario.commandLine =
      Startup.Started
        [Startup.DidDial "tcp" "192.168.99.100:22" "root";
         Startup.DidNewClient; Startup.DidNewWatcher; Startup.GoEventLoop;
         Startup.GoErrorLoop; Startup.DidWatch "/src"]
        (Startup.Watching g) /\
    Startup.rsftp g = None /\
    Startup.onEvent (File := LocalFile) (Handle := string) g
      Scenario.notesCreated
      = (None, handleEvent "/dest" Scenario.notesCreated).
Proof. eexists. vm_compute. done. Qed.

(** ** [strip] *)

Import Strings.

Local Open Scope list_scope.

Section Trimming.
Implicit Types (f g : Z -> bool) (s : runes).

Lemma TrimLeftFunc_split f s :
  exists l, s = l ++ TrimLeftFunc f s /\ forallb f l = true.
Proof.
  induction s as [|r t IH]; simpl.
  - by exists [].
  - destruct (f r) eqn:Hr.
    + destruct IH as (l & Ht & Hl). exists (r :: l). simpl.
      rewrite Hr, Hl. split; [by f_equal|done].
    + by exists [].
Qed.

Lemma TrimLeftFunc_head f s r t :
  TrimLeftFunc f s = r :: t -> f r = false.
Proof.
  induction s as [|a u IH]; simpl; [done|].
  destruct (f a) eqn:Ha; [done|]. by intros [= <- <-].
Qed.

Lemma TrimLeftFunc_all f s :
  forallb f s = true -> TrimLeftFunc f s = [].
Proof.
  induction s as [|a u IH]; simpl; [done|].
  destruct (f a); simpl; [done|discriminate].
Qed.

Lemma TrimLeftFunc_nil f s :
  TrimLeftFunc f s = [] -> forallb f s = true.
Proof.
  induction s as [|a u IH]; simpl; [done|].
  destruct (f a); simpl; [done|discriminate].
Qed.

Lemma TrimLeftFunc_fixed f s r t :
  s = r :: t -> f r = false -> TrimLeftFunc f s = s.
Proof. intros -> Hr. simpl. by rewrite Hr. Qed.

(** Appending one rune to a string that is not all trimmed away. *)
Lemma TrimLeftFunc_snoc f s a :
  TrimLeftFunc f (s ++ [a]) =
    match TrimLeftFunc f s with
    | [] => if f a then [] else [a]
    | t => t ++ [a]
    end.
Proof.
  induction s as [|r t IH]; simpl; [done|].
  destruct (f r); [done|done].
Qed.

(** A weaker trim before a stronger one changes nothing. *)
Lemma TrimLeftFunc_absorb f g s :
  (forall r, g r = true -> f r = true) ->
  TrimLeftFunc f (TrimLeftFunc g s) = TrimLeftFunc f s.
Proof.
  intros Hgf. induction s as [|r t IH]; simpl; [done|].
  destruct (g r) eqn:Hg.
  - by rewrite (Hgf _ Hg).
  - done.
Qed.

Lemma TrimRightFunc_absorb f g s :
  (forall r, g r = true -> f r = true) ->
  TrimRightFunc f (TrimRightFunc g s) = TrimRightFunc f s.
Proof.
  intros Hgf. unfold TrimRightFunc. rewrite rev_involutive.
  by rewrite TrimLeftFunc_absorb.
Qed.

(** Trimming the front and trimming the back commute. *)
Lemma TrimLeft_TrimRight f g s :
  TrimLeftFunc f (TrimRightFunc g s) = TrimRightFunc g (TrimLeftFunc f s).
Proof.
  unfold TrimRightFunc. induction s as [|a t IH]; [done|].
  assert (Hsnoc : forall u, rev (u ++ [a]) = a :: rev u)
    by (intros u; apply (rev_app_distr u [a])).
  change (rev (a :: t)) with (rev t ++ [a]).
  rewrite TrimLeftFunc_snoc. cbn [TrimLeftFunc]. destruct (f a) eqn:Ha.
  - rewrite <- IH. destruct (TrimLeftFunc g (rev t)) as [|b u] eqn:Hg.
    + destruct (g a); cbn; by rewrite ?Ha.
    + rewrite Hsnoc. cbn [TrimLeftFunc]. by rewrite Ha.
  - change (rev (a :: t)) with (rev t ++ [a]). rewrite TrimLeftFunc_snoc.
    destruct (TrimLeftFunc g (rev t)) as [|b u] eqn:Hg.
    + destruct (g a); cbn; by rewrite ?Ha.
    + rewrite Hsnoc. cbn [TrimLeftFunc]. by rewrite Ha.
Qed.

Lemma TrimFunc_absorb f g s :
  (forall r, g r = true -> f r = true) ->
  TrimFunc f (TrimFunc g s) = TrimFunc f s.
Proof.
  intros Hgf. unfold TrimFunc.
  rewrite TrimLeft_TrimRight, TrimLeftFunc_absorb by done.
  by rewrite TrimRightFunc_absorb.
Qed.


Lemma TrimFunc_head f s r t : TrimFunc f s = r :: t -> f r = false.
Proof.
  unfold TrimFunc. rewrite <- TrimLeft_TrimRight. apply TrimLeftFunc_head.
Qed.

Lemma TrimFunc_last f s t r : TrimFunc f s = t ++ [r] -> f r = false.
Proof.
  unfold TrimFunc, TrimRightFunc. intros H.
  apply (f_equal (@rev Z)) in H. rewrite rev_involutive in H.
  rewrite (rev_app_distr t [r]) in H. by apply TrimLeftFunc_head in H.
Qed.

Lemma forallb_rev f s : forallb f (rev s) = forallb f s.
Proof.
  induction s as [|a t IH]; simpl; [done|].
  rewrite forallb_app, IH. simpl. destruct (f a), (forallb f t); done.
Qed.

Lemma TrimFunc_nil f s : TrimFunc f s = [] <-> forallb f s = true.
Proof.
  unfold TrimFunc, TrimRightFunc. split.
  - intros H. apply (f_equal (@rev Z)) in H. rewrite rev_involutive in H.
    apply TrimLeftFunc_nil in H. rewrite forallb_rev in H.
    destruct (TrimLeftFunc_split f s) as (l & Hs & Hl).
    rewrite Hs, forallb_app, Hl. done.
  - intros H. by rewrite (TrimLeftFunc_all f s H).
Qed.

Lemma TrimFunc_split f s :
  exists l r, s = l ++ TrimFunc f s ++ r /\
              forallb f l = true /\ forallb f r = true.
Proof.
  destruct (TrimLeftFunc_split f s) as (l & Hs & Hl).
  destruct (TrimLeftFunc_split f (rev (TrimLeftFunc f s))) as (r & Hr & Hfr).
  exists l, (rev r). split_and!; [|done|by rewrite forallb_rev].
  unfold TrimFunc, TrimRightFunc.
  rewrite <- rev_app_distr, <- Hr, rev_involutive. exact Hs.
Qed.

Lemma TrimFunc_fixed f s :
  (forall r, head s = Some r -> f r = false) ->
  (forall r, last s = Some r -> f r = false) ->
  TrimFunc f s = s.
Proof.
  intros Hh Hl. unfold TrimFunc, TrimRightFunc.
  destruct s as [|a t]; [done|].
  rewrite (TrimLeftFunc_fixed f (a :: t) a t) by auto.
  destruct (rev (a :: t)) as [|b u] eqn:Hrev.
  - apply (f_equal (@rev Z)) in Hrev. by rewrite rev_involutive in Hrev.
  - rewrite (TrimLeftFunc_fixed f (b :: u) b u); [|done|].
    + by rewrite <- Hrev, rev_involutive.
    + apply Hl. rewrite <- (rev_involutive (a :: t)), Hrev.
      simpl. apply last_snoc.
Qed.

End Trimming.

(** The newline trim inside [strip] is absorbed by the space trim. *)
Lemma strip_TrimSpace (v : runes) : strip v = TrimSpace v.
Proof.
  unfold strip, Trim, newline, TrimSpace. destruct v as [|r t]; [done|].
  apply TrimFunc_absorb. intros x Hx. apply bool_decide_eq_true in Hx.
  apply list_elem_of_singleton in Hx. by subst x.
Qed.

(** X1: [strip] does what [strings.TrimSpace] alone does: the inner
    [strings.Trim(v, "\n")] never changes the result. *)
Theorem strip_newline_trim_is_redundant (v : runes) :
  strip v = TrimSpace v /\ strip v = TrimFunc IsSpace v.
Proof. split; apply strip_TrimSpace. Qed.

(** X2: [strip] is idempotent. *)
Theorem strip_idempotent (v : runes) : strip (strip v) = strip v.
Proof. rewrite !strip_TrimSpace. by apply TrimFunc_absorb. Qed.

(** X3: what [strip] returns neither starts nor ends with white space,
    and it is empty exactly when the input is white space throughout. *)
Theorem strip_ends_not_space (v : runes) :
  (forall r, head (strip v) = Some r -> IsSpace r = false) /\
  (forall r, last (strip v) = Some r -> IsSpace r = false) /\
  (strip v = [] <-> forallb IsSpace v = true).
Proof.
  rewrite strip_TrimSpace. unfold TrimSpace. split_and!.
  - intros r Hr. destruct (TrimFunc IsSpace v) as [|a t] eqn:Ht; [done|].
    injection Hr as ->. by eapply TrimFunc_head.
  - intros r Hr. apply last_Some in Hr as [t Ht].
    by eapply TrimFunc_last.
  - apply TrimFunc_nil.
Qed.

Lemma strip_ends_not_space_witness :
  let v := [10; 32; 107; 32; 101; 160; 9; 10]%Z in
  strip v = [107; 32; 101]%Z /\
  IsSpace 107 = false /\ IsSpace 101 = false /\
  (strip [10; 32; 9]%Z = [] <-> forallb IsSpace [10; 32; 9]%Z = true).
Proof.
  intros v.
  destruct (strip_ends_not_space v) as (Hh & Hl & _).
  split; [reflexivity|]. split; [exact (Hh 107%Z eq_refl)|].
  split; [exact (Hl 101%Z eq_refl)|].
  exact (proj2 (proj2 (strip_ends_not_space [10; 32; 9]%Z))).
Defined.

(** X4: [strip] only takes white space off the two ends: the input is the
    result with white space before and after it, so everything between
    the first and the last non-space rune is kept as it is. *)
Theorem strip_removes_only_outer_space (v : runes) :
  exists l r, v = l ++ strip v ++ r /\
              forallb IsSpace l = true /\ forallb IsSpace r = true.
Proof. rewrite strip_TrimSpace. apply TrimFunc_split. Qed.

(** X5: [strip] returns its input unchanged exactly when the input has no
    white space at either end. *)
Theorem strip_fixes_trimmed (v : runes) :
  strip v = v <->
  (forall r, head v = Some r -> IsSpace r = false) /\
  (forall r, last v = Some r -> IsSpace r = false).
Proof.
  rewrite strip_TrimSpace. unfold TrimSpace. split.
  - intros Hv. split.
    + intros r Hr. rewrite <- Hv in Hr.
      destruct (TrimFunc IsSpace v) as [|a t] eqn:Ht; [done|].
      injection Hr as ->. by eapply TrimFunc_head.
    + intros r Hr. rewrite <- Hv in Hr. apply last_Some in Hr as [t Ht].
      by eapply TrimFunc_last.
  - intros [Hh Hl]. by apply TrimFunc_fixed.
Qed.

Lemma strip_fixes_trimmed_witness :
  let v := [107; 32; 10; 101]%Z in
  (forall r, head v = Some r -> IsSpace r = false) /\
  (forall r, last v = Some r -> IsSpace r = false) /\
  strip v = v.
Proof.
  intros v.
  assert (Hh : forall r, head v = Some r -> IsSpace r = false)
    by (intros r [= <-]; reflexivity).
  assert (Hl : forall r, last v = Some r -> IsSpace r = false)
    by (intros r [= <-]; reflexivity).
  split; [exact Hh|]. split; [exact Hl|].
  exact (proj2 (strip_fixes_trimmed v) (conj Hh Hl)).
Defined.

(** ** The handlers as a pool of goroutines *)

Local Open Scope string_scope.
Import Fsnotify Sync Pool.

Section PoolFacts.
Context {W File Handle : Type} `{S : Sys W File Handle}.

Lemma handleEvent_Quiet (destPath : string) (evt : FileEvent) :
  Quiet (handleEvent (File := File) (Handle := Handle) destPath evt).
Proof.
  unfold handleEvent. destruct (IsDelete evt); simpl.
  - split; [done|]. intros _. split; [done|]. intros [err|]; simpl; done.
  - split; [done|]. intros _. split; [done|]. intros [err|f]; simpl; [done|].
    split; [done|]. intros _. split; [done|]. intros [err|h]; simpl; [done|].
    split; [done|]. intros [err|data]; simpl; [done|].
    split; [done|]. intros [err|]; simpl; done.
Qed.

Lemma handleEvent_Within (destPath : string) (evt : FileEvent) :
  Within 7 (handleEvent (File := File) (Handle := Handle) destPath evt).
Proof.
  unfold handleEvent. destruct (IsDelete evt); simpl.
  - intros _ [err|]; simpl; done.
  - intros _ [err|f]; simpl; [done|].
    intros _ [err|h]; simpl; [done|].
    intros [err|data]; simpl; [done|].
    intros [err|]; simpl; done.
Qed.

Lemma eventLoop_events (destPath : string) (msgs : list WatcherMsg) :
  eventLoop (File := File) (Handle := Handle) destPath msgs =
  map (handleEvent destPath) (events msgs).
Proof.
  induction msgs as [|[ev|err] rest IH]; simpl; [done| |done].
  unfold eventLoop, events in *. simpl. by rewrite IH.
Qed.

(** A quiet call is always answered, and leaves mutex and channel alone. *)
Lemma perform_quiet {R : Type} (c : Call File Handle R) (m : Machine W) :
  quietCall c = true ->
  exists r m1, perform c m = Some (r, m1) /\
               mutex m1 = mutex m /\ errorChan m1 = errorChan m.
Proof.
  destruct c; simpl; try done; intros _.
  - by eexists _, _.
  - by eexists _, _.
  - destruct (os_Open _ _) as [r w]. by eexists _, _.
  - destruct (ioutil_ReadAll _ _) as [r w]. by eexists _, _.
  - destruct (sftp_Remove _ _) as [r w]. by eexists _, _.
  - destruct (sftp_Create _ _) as [r w]. by eexists _, _.
  - destruct (file_Write _ _ _) as [r w]. by eexists _, _.
Qed.

Lemma step_quiet (p : Prog File Handle) (m : Machine W) :
  Quiet p ->
  match step p m with
  | Some (a, p1, m1) =>
      Quiet p1 /\ mutex m1 = mutex m /\ errorChan m1 = errorChan m /\
      isSend a = false /\ isMutexCall a = false
  | None => p = Return
  end.
Proof.
  destruct p as [|R c k]; simpl; [done|]. intros [Hc Hk].
  destruct (perform_quiet c m Hc) as (r & m1 & -> & Hm & He).
  split_and!; try done; by destruct c.
Qed.


Lemma Forall_Quiet_insert (ps : list (Prog File Handle)) i p :
  Forall Quiet ps -> Quiet p -> Forall Quiet (<[i := p]> ps).
Proof.
  intros Hps Hp. apply Forall_forall. intros q Hq.
  apply list_elem_of_lookup in Hq as [j Hj].
  destruct (decide (i = j)) as [->|Hne].
  - destruct (decide (j < length ps)) as [Hlt|Hge].
    + rewrite list_lookup_insert_eq in Hj by done. by injection Hj as <-.
    + rewrite list_insert_ge in Hj by lia.
      eapply Forall_forall in Hps; [done|]. by eapply list_elem_of_lookup_2.
  - rewrite list_lookup_insert_ne in Hj by done.
    eapply Forall_forall in Hps; [done|]. by eapply list_elem_of_lookup_2.
Qed.

(** A pool of quiet goroutines, under any schedule, leaves the mutex and
    the error channel as they were and performs no send and no mutex
    call. *)
Lemma runPool_quiet (sched : list nat) (ps : list (Prog File Handle))
    (m : Machine W) :
  Forall Quiet ps ->
  let r := runPool sched ps m in
  mutex r.2.2 = mutex m /\ errorChan r.2.2 = errorChan m /\
  Forall (fun ia => isSend ia.2 = false /\ isMutexCall ia.2 = false) r.1.
Proof.
  revert ps m. induction sched as [|i s IH]; intros ps m Hps; simpl.
  - done.
  - destruct (ps !! i) as [p|] eqn:Hp; [|by apply IH].
    assert (Hq : Quiet p).
    { eapply Forall_forall in Hps; [done|]. by eapply list_elem_of_lookup_2. }
    pose proof (step_quiet p m Hq) as Hstep.
    destruct (step p m) as [[[a p1] m1]|]; [|by apply IH].
    destruct Hstep as (Hq1 & Hm & He & Hs & Hl).
    specialize (IH (<[i := p1]> ps) m1 (Forall_Quiet_insert ps i p1 Hps Hq1)).
    destruct (runPool s (<[i:=p1]> ps) m1) as [t r]. simpl in *.
    destruct IH as (IHm & IHe & IHt). split_and!; [congruence|congruence|].
    by constructor.
Qed.

(** A quiet goroutine that is over within [n] calls is finished once it
    has been picked [n] times, whatever else is in the pool. *)
Lemma runPool_finishes (sched : list nat) (ps : list (Prog File Handle))
    (m : Machine W) (i n : nat) (p : Prog File Handle) :
  ps !! i = Some p -> Quiet p -> Within n p ->
  n <= length (List.filter (Nat.eqb i) sched) ->
  (runPool sched ps m).2.1 !! i = Some Return.
Proof.
  revert ps m n p. induction sched as [|j s IH]; intros ps m n p Hp Hq Hw Hn.
  - simpl in *. destruct p as [|R c k]; [done|].
    destruct n; [done|lia].
  - cbn [runPool]. cbn [List.filter] in Hn.
    destruct (decide (i = j)) as [<-|Hne].
    + rewrite Nat.eqb_refl in Hn. cbn [length] in Hn. rewrite Hp.
      pose proof (step_quiet p m Hq) as Hstep.
      destruct (step p m) as [[[a p1] m1]|] eqn:Hs.
      * destruct Hstep as (Hq1 & _).
        destruct p as [|R c k]; [done|]. simpl in Hs.
        destruct (perform c m) as [[r m2]|]; [|done].
        injection Hs as <- <- <-.
        destruct n as [|n'].
        -- done.
        -- specialize (IH (<[i := k r]> ps) m2 n' (k r)).
           destruct (runPool s (<[i:=k r]> ps) m2) as [t res]. simpl.
           apply IH; [|done|apply Hw|lia].
           apply list_lookup_insert_eq. by eapply lookup_lt_Some.
      * subst p. apply (IH ps m 0 Return); simpl; [done|done|done|lia].
    + assert (Hneb : Nat.eqb i j = false) by by apply Nat.eqb_neq.
      rewrite Hneb in Hn.
      destruct (ps !! j) as [q|] eqn:Hq'; [|by eapply IH].
      destruct (step q m) as [[[a q1] m1]|]; [|by eapply IH].
      specialize (IH (<[j := q1]> ps) m1 n p).
      destruct (runPool s (<[j:=q1]> ps) m1) as [t res]. simpl.
      apply IH; try done. by rewrite list_lookup_insert_ne.
Qed.

End PoolFacts.

(** *** Handlers on the in-memory world *)

Lemma append_inj_r (d a b : string) : d +:+ a = d +:+ b -> a = b.
Proof. induction d as [|c d IH]; simpl; [done|]. intros [= H]. auto. Qed.

Lemma remotePath_inj (destPath : string) (e1 e2 : FileEvent) :
  remotePath destPath e1 = remotePath destPath e2 -> Name e1 = Name e2.
Proof.
  unfold remotePath. intros H. apply append_inj_r in H.
  by apply (append_inj_r "/") in H.
Qed.

Lemma handleEvent_Confined (destPath : string) (evt : FileEvent) :
  Confined (remotePath destPath evt) (handleEvent destPath evt).
Proof.
  unfold handleEvent. destruct (IsDelete evt); simpl.
  - split; [done|]. intros _ _. split; [done|]. intros [err|] _; simpl; done.
  - split; [done|]. intros _ _. split; [done|].
    intros [err|f] _; simpl; [done|].
    split; [done|]. intros _ _. split; [done|].
    intros [err|h] Hh; simpl in *; [done|]. subst h.
    split; [done|]. intros [err|data] _; simpl; [done|].
    split; [done|]. intros [err|] _; simpl; done.
Qed.

Lemma agree_refl a w : agree a w w.
Proof. done. Qed.

(** A step of a program confined to [a] stays confined, leaves every
    other remote path and the local side alone, and is the same step in
    any world that looks the same from [a]. *)
Lemma step_confined (a : string) (p : Prog LocalFile string)
    (m : Machine MemWorld) :
  Confined a p ->
  match step p m with
  | Some (act, p1, m1) =>
      Confined a p1 /\
      localFS (world m1) = localFS (world m) /\
      noCreate (world m1) = noCreate (world m) /\
      noWrite (world m1) = noWrite (world m) /\
      (forall b, b <> a ->
         remoteFS (world m1) !! b = remoteFS (world m) !! b) /\
      (forall ms, agree a (world m) (world ms) ->
         exists ms1, step p ms = Some (act, p1, ms1) /\
                     agree a (world m1) (world ms1))
  | None => p = Return
  end.
Proof.
  destruct p as [|R c k]; [done|]. intros [Hc Hk].
  destruct c; simpl in Hc; try done; subst; simpl.
  - split; [by apply Hk|]. do 4 (split; [done|]).
    intros ms Ha. by exists ms.
  - split; [by apply Hk|]. do 4 (split; [done|]).
    intros ms Ha. by exists ms.
  - unfold mem_Open.
    destruct (localFS (world m) !! name) as [f|] eqn:Hf; simpl.
    + split; [by apply Hk|]. do 4 (split; [done|]).
      intros ms (Hl & Hcr & Hw & Hr). rewrite <- Hl, Hf.
      eexists; split; done.
    + split; [by apply Hk|]. do 4 (split; [done|]).
      intros ms (Hl & Hcr & Hw & Hr). rewrite <- Hl, Hf.
      eexists; split; done.
  - unfold mem_ReadAll. destruct f as [data|err]; simpl.
    + split; [by apply Hk|]. do 4 (split; [done|]).
      intros ms Ha. eexists; split; done.
    + split; [by apply Hk|]. do 4 (split; [done|]).
      intros ms Ha. eexists; split; done.
  - unfold mem_Remove.
    destruct (remoteFS (world m) !! a) as [old|] eqn:Hold; simpl.
    + split; [by apply Hk|]. do 3 (split; [done|]). split.
      * intros b Hb. simpl. by rewrite lookup_delete_ne.
      * intros ms (Hl & Hcr & Hw & Hr). rewrite <- Hr, Hold.
        eexists; split; [done|]. simpl.
        split_and!; try done. by (simpl; rewrite !lookup_delete_eq).
    + split; [by apply Hk|]. do 4 (split; [done|]).
      intros ms (Hl & Hcr & Hw & Hr). rewrite <- Hr, Hold.
      eexists; split; [done|]. simpl. split_and!; done.
  - unfold mem_Create.
    destruct (decide (a ∈ noCreate (world m))) as [Hin|Hin]; simpl.
    + split; [by apply Hk|]. do 4 (split; [done|]).
      intros ms (Hl & Hcr & Hw & Hr). rewrite <- Hcr, decide_True by done.
      eexists; split; done.
    + split; [by apply Hk|]. do 3 (split; [done|]). split.
      * intros b Hb. simpl. by rewrite lookup_insert_ne.
      * intros ms (Hl & Hcr & Hw & Hr). rewrite <- Hcr, decide_False by done.
        eexists; split; [done|]. simpl. split_and!; try done.
        by (simpl; rewrite !lookup_insert_eq).
  - unfold mem_Write.
    destruct (decide (a ∈ noWrite (world m))) as [Hin|Hin]; simpl.
    + split; [by apply Hk|]. do 4 (split; [done|]).
      intros ms (Hl & Hcr & Hw & Hr). rewrite <- Hw, decide_True by done.
      eexists; split; done.
    + destruct (remoteFS (world m) !! a) as [old|] eqn:Hold; simpl.
      * split; [by apply Hk|]. do 3 (split; [done|]). split.
        -- intros b Hb. simpl. by rewrite lookup_insert_ne.
        -- intros ms (Hl & Hcr & Hw & Hr).
           rewrite <- Hw, decide_False by done.
           assert (Hr' : Some old = remoteFS (world ms) !! a)
             by (etrans; [symmetry; exact Hold|exact Hr]).
           revert Hr'.
           destruct (remoteFS (world ms) !! a) as [old'|]; [|done].
           intros [= <-]. eexists; split; [done|]. simpl.
           split_and!; try done. by (simpl; rewrite !lookup_insert_eq).
      * split; [by apply Hk|]. do 4 (split; [done|]).
        intros ms (Hl & Hcr & Hw & Hr).
        rewrite <- Hw, decide_False by done.
        assert (Hr' : None = remoteFS (world ms) !! a)
          by (etrans; [symmetry; exact Hold|exact Hr]).
        revert Hr'.
        destruct (remoteFS (world ms) !! a) as [old'|] eqn:Hms; [done|].
        intros _. eexists; split; [done|]. simpl. split_and!; try done.
        first [exact Hr|exact Hold|by etrans; [exact Hold|]].
Qed.

Lemma exec_mem_step (p p1 : Prog LocalFile string)
    (m m1 : Machine MemWorld) a :
  step p m = Some (a, p1, m1) ->
  exec p m = (a :: (exec p1 m1).1, (exec p1 m1).2).
Proof.
  destruct p as [|R c k]; simpl; [discriminate|].
  destruct (perform c m) as [[r m2]|]; [|discriminate].
  intros [= <- <- <-]. by destruct (exec (k r) m2).
Qed.

(** Goroutine [i], confined to [a], in a pool whose other goroutines are
    confined to other paths: what it has done so far under the schedule,
    followed by what is left of it run alone, is its run alone from the
    start. *)
Lemma runPool_solo (sched : list nat) (ps : list (Prog LocalFile string))
    (m ms : Machine MemWorld) (i : nat) (p : Prog LocalFile string)
    (a : string) :
  ps !! i = Some p -> Confined a p ->
  (forall j q, j <> i -> ps !! j = Some q ->
     exists b, b <> a /\ Confined b q) ->
  agree a (world m) (world ms) ->
  let r := runPool sched ps m in
  exists p' ms',
    r.2.1 !! i = Some p' /\
    agree a (world r.2.2) (world ms') /\
    (exec p ms).1 = (actionsOf i r.1 ++ (exec p' ms').1)%list /\
    (exec p ms).2 = (exec p' ms').2.
Proof.
  revert ps m ms p. induction sched as [|j s IH]; intros ps m ms p Hp Hc Ho Ha.
  - simpl. by exists p, ms.
  - cbn [runPool].
    destruct (ps !! j) as [q|] eqn:Hq; [|by apply IH].
    destruct (decide (j = i)) as [->|Hne].
    + assert (q = p) by congruence. subst q.
      pose proof (step_confined a p m Hc) as Hstep.
      destruct (step p m) as [[[act p1] m1]|] eqn:Hs; [|by apply IH].
      destruct Hstep as (Hc1 & _ & _ & _ & _ & Hsim).
      destruct (Hsim ms Ha) as (ms1 & Hs1 & Ha1).
      specialize (IH (<[i := p1]> ps) m1 ms1 p1).
      destruct (runPool s (<[i:=p1]> ps) m1) as [t res]. simpl in *.
      destruct IH as (p' & ms' & Hres & Hag & Ht & Hm); try done.
      * apply list_lookup_insert_eq. by eapply lookup_lt_Some.
      * intros j q Hj Hjq. rewrite list_lookup_insert_ne in Hjq by done.
        by eapply Ho.
      * exists p', ms'. split_and!; try done.
        -- rewrite (exec_mem_step _ _ _ _ _ Hs1). simpl.
           unfold actionsOf. simpl. rewrite decide_True by done. simpl.
           by f_equal.
        -- by rewrite (exec_mem_step _ _ _ _ _ Hs1).
    + destruct (Ho j q Hne Hq) as (b & Hb & Hcb).
      pose proof (step_confined b q m Hcb) as Hstep.
      destruct (step q m) as [[[act q1] m1]|] eqn:Hs; [|by apply IH].
      destruct Hstep as (Hc1 & Hl & Hcr & Hw & Hframe & _).
      specialize (IH (<[j := q1]> ps) m1 ms p).
      destruct (runPool s (<[j:=q1]> ps) m1) as [t res]. simpl in *.
      destruct IH as (p' & ms' & Hres & Hag & Ht & Hm); try done.
      * by rewrite list_lookup_insert_ne.
      * intros j' q' Hj' Hjq'. destruct (decide (j' = j)) as [->|Hjj].
        -- rewrite list_lookup_insert_eq in Hjq'
             by (by eapply lookup_lt_Some).
           injection Hjq' as <-. by exists b.
        -- rewrite list_lookup_insert_ne in Hjq' by done. by eapply Ho.
      * destruct Ha as (Ha1 & Ha2 & Ha3 & Ha4).
        split_and!; [congruence..|]. rewrite Hframe by done. exact Ha4.
      * exists p', ms'. split_and!; try done.
        unfold actionsOf. simpl. by rewrite decide_False.
Qed.

(** *** The pool the event loop starts *)

Section EventPool.
Context {W File Handle : Type} `{S : Sys W File Handle}.

(** X6: whatever the watcher delivers and however the handlers are
    scheduled, no handler sends on the error channel or touches the
    mutex: both are as they were at the start, and an error loop that
    found its channel empty at the start has nothing to log. *)
Theorem pool_never_sends_nor_locks (destPath : string)
    (msgs : list WatcherMsg) (sched : list nat) (m : Machine W) :
  let r := runPool sched (eventLoop destPath msgs) m in
  mutex r.2.2 = mutex m /\
  errorChan r.2.2 = errorChan m /\
  Forall (fun ia => isSend ia.2 = false /\ isMutexCall ia.2 = false) r.1 /\
  (errorChan m = [] -> (errorLoop r.2.2).1 = []).
Proof.
  intros r.
  assert (Hq : Forall Quiet (eventLoop (File := File) (Handle := Handle)
                               destPath msgs)).
  { rewrite eventLoop_events. apply Forall_forall. intros p Hp.
    apply list_elem_of_fmap in Hp as (e & -> & _). apply handleEvent_Quiet. }
  destruct (runPool_quiet sched _ m Hq) as (Hm & He & Ht).
  split_and!; try done.
  intros Hnil. unfold errorLoop. cbn [fst].
  replace (errorChan r.2.2) with (@nil error); [done|].
  symmetry. etrans; [exact He|exact Hnil].
Qed.

(** X7: a handler cannot be held up: once the schedule has picked it
    seven times it has returned, whatever the other handlers do and
    whatever the local and the remote side answer. *)
Theorem handler_returns_within_seven_steps (destPath : string)
    (msgs : list WatcherMsg) (sched : list nat) (m : Machine W) (i : nat) :
  i < length (events msgs) ->
  7 <= length (List.filter (Nat.eqb i) sched) ->
  (runPool sched (eventLoop destPath msgs) m).2.1 !! i = Some Return.
Proof.
  intros Hi Hn. destruct (lookup_lt_is_Some_2 _ _ Hi) as [e He].
  apply (runPool_finishes sched _ m i 7 (handleEvent destPath e)).
  - rewrite eventLoop_events, list_lookup_fmap, He. done.
  - apply handleEvent_Quiet.
  - apply handleEvent_Within.
  - done.
Qed.

End EventPool.

Lemma event_pool_solo (destPath : string) (msgs : list WatcherMsg)
    (sched : list nat) (m : Machine MemWorld) (i : nat) (e : FileEvent) :
  NoDup (Name <$> events msgs) ->
  events msgs !! i = Some e ->
  let r := runPool sched (eventLoop destPath msgs) m in
  exists p' ms',
    r.2.1 !! i = Some p' /\
    agree (remotePath destPath e) (world r.2.2) (world ms') /\
    (handle destPath e m).1 = (actionsOf i r.1 ++ (exec p' ms').1)%list /\
    (handle destPath e m).2 = (exec p' ms').2.
Proof.
  intros Hnd He. unfold handle.
  apply runPool_solo.
  - rewrite eventLoop_events, list_lookup_fmap, He. done.
  - apply handleEvent_Confined.
  - intros j q Hj Hq. rewrite eventLoop_events, list_lookup_fmap in Hq.
    destruct (events msgs !! j) as [e'|] eqn:He'; [|done].
    injection Hq as <-. exists (remotePath destPath e'). split.
    + intros Heq. apply remotePath_inj in Heq.
      apply Hj. eapply (NoDup_lookup _ _ _ _ Hnd).
      * rewrite list_lookup_fmap, He'. simpl. by rewrite Heq.
      * by rewrite list_lookup_fmap, He.
    + apply handleEvent_Confined.
  - apply agree_refl.
Qed.

(** X8: with events for pairwise different paths, under any schedule,
    what a handler has done so far is the beginning of what it does when
    it runs alone from the same start: the other handlers change none of
    the answers it gets. *)
Theorem handler_actions_prefix_of_solo_run (destPath : string)
    (msgs : list WatcherMsg) (sched : list nat) (m : Machine MemWorld)
    (i : nat) (e : FileEvent) :
  NoDup (Name <$> events msgs) ->
  events msgs !! i = Some e ->
  actionsOf i (runPool sched (eventLoop destPath msgs) m).1
    `prefix_of` (handle destPath e m).1.
Proof.
  intros Hnd He.
  destruct (event_pool_solo destPath msgs sched m i e Hnd He)
    as (p' & ms' & _ & _ & Ht & _).
  rewrite Ht. by eexists.
Qed.

(** X9: with events for pairwise different paths, a handler that has had
    its seven turns has done exactly what it does alone, and the remote
    file at its path is what its run alone leaves there, however the other
    handlers were interleaved with it; for a readable local file that the
    server accepts, that is the local bytes. *)
Theorem concurrent_handlers_do_not_interfere (destPath : string)
    (msgs : list WatcherMsg) (sched : list nat) (m : Machine MemWorld)
    (i : nat) (e : FileEvent) :
  NoDup (Name <$> events msgs) ->
  events msgs !! i = Some e ->
  7 <= length (List.filter (Nat.eqb i) sched) ->
  let r := runPool sched (eventLoop destPath msgs) m in
  let path := destPath +:+ "/" +:+ Name e in
  actionsOf i r.1 = (handle destPath e m).1 /\
  remoteFS (world r.2.2) !! path =
    remoteFS (world (handle destPath e m).2) !! path /\
  (forall data,
     IsDelete e = false ->
     localFS (world m) !! Name e = Some (Readable data) ->
     path ∉ noCreate (world m) -> path ∉ noWrite (world m) ->
     remoteFS (world r.2.2) !! path = Some data).
Proof.
  intros Hnd He Hn r path.
  destruct (event_pool_solo destPath msgs sched m i e Hnd He)
    as (p' & ms' & Hres & Hag & Ht & Hm).
  fold r in Hres, Hag, Ht.
  assert (Hret : r.2.1 !! i = Some Return).
  { apply (runPool_finishes sched _ m i 7 (handleEvent destPath e)).
    - rewrite eventLoop_events, list_lookup_fmap, He. done.
    - apply handleEvent_Quiet.
    - apply handleEvent_Within.
    - done. }
  rewrite Hret in Hres. injection Hres as <-. simpl in Ht, Hm.
  rewrite app_nil_r in Ht.
  assert (Hpath : remoteFS (world r.2.2) !! path =
                  remoteFS (world (handle destPath e m).2) !! path).
  { rewrite Hm. by destruct Hag as (_ & _ & _ & Hr). }
  split_and!; [done|done|].
  intros data Hd Hl Hc Hw. rewrite Hpath.
  rewrite handle_update_remote by done.
  unfold afterUpdate. fold (remotePath destPath e) in path. fold path.
  rewrite Hl, !decide_False by done. apply lookup_insert_eq.
Qed.

Lemma pool_never_sends_nor_locks_witness :
  let r := runPool Burst.turns
             (eventLoop (File := LocalFile) (Handle := string)
                "/dest" Burst.msgs) (idle Scenario.abWorld) in
  errorChan (idle Scenario.abWorld) = [] /\
  mutex r.2.2 = false /\
  errorChan r.2.2 = [] /\
  (errorLoop r.2.2).1 = [].
Proof.
  intros r.
  destruct (pool_never_sends_nor_locks "/dest" Burst.msgs Burst.turns
              (idle Scenario.abWorld)) as (Hm & He & _ & Hloop).
  split; [reflexivity|]. split; [exact Hm|]. split; [exact He|].
  exact (Hloop eq_refl).
Defined.

Lemma handler_returns_within_seven_steps_witness :
  1 < length (events Burst.msgs) /\
  7 <= length (List.filter (Nat.eqb 1) Burst.turns) /\
  (runPool Burst.turns
     (eventLoop (File := LocalFile) (Handle := string) "/dest" Burst.msgs)
     (idle Scenario.abWorld)).2.1 !! 1 = Some Return.
Proof.
  assert (Hi : 1 < length (events Burst.msgs)) by (simpl; lia).
  assert (Hn : 7 <= length (List.filter (Nat.eqb 1) Burst.turns))
    by (simpl; lia).
  split; [exact Hi|]. split; [exact Hn|].
  exact (handler_returns_within_seven_steps "/dest" Burst.msgs Burst.turns
           (idle Scenario.abWorld) 1 Hi Hn).
Defined.

Lemma burst_names_distinct : NoDup (Name <$> events Burst.msgs).
Proof.
  simpl. apply NoDup_cons. split; [|apply NoDup_singleton].
  intros Hin. apply list_elem_of_singleton in Hin. discriminate.
Defined.

Lemma handler_actions_prefix_of_solo_run_witness :
  NoDup (Name <$> events Burst.msgs) /\
  events Burst.msgs !! 1 = Some Scenario.bModified /\
  actionsOf 1 (runPool [0; 1; 0; 1; 0; 1] (eventLoop "/dest" Burst.msgs)
                 (idle Scenario.abWorld)).1
    `prefix_of` (handle "/dest" Scenario.bModified (idle Scenario.abWorld)).1.
Proof.
  split; [exact burst_names_distinct|]. split; [reflexivity|].
  exact (handler_actions_prefix_of_solo_run "/dest" Burst.msgs
           [0; 1; 0; 1; 0; 1] (idle Scenario.abWorld) 1 Scenario.bModified
           burst_names_distinct eq_refl).
Defined.

Lemma concurrent_handlers_do_not_interfere_witness :
  let r := runPool Burst.turns (eventLoop "/dest" Burst.msgs)
             (idle Scenario.abWorld) in
  NoDup (Name <$> events Burst.msgs) /\
  events Burst.msgs !! 1 = Some Scenario.bModified /\
  7 <= length (List.filter (Nat.eqb 1) Burst.turns) /\
  actionsOf 1 r.1 =
    (handle "/dest" Scenario.bModified (idle Scenario.abWorld)).1 /\
  remoteFS (world r.2.2) !! "/dest/b.txt" =
    Some (String.list_byte_of_string "B").
Proof.
  intros r.
  assert (Hn : 7 <= length (List.filter (Nat.eqb 1) Burst.turns))
    by (simpl; lia).
  destruct (concurrent_handlers_do_not_interfere "/dest" Burst.msgs
              Burst.turns (idle Scenario.abWorld) 1 Scenario.bModified
              burst_names_distinct eq_refl Hn) as (Hact & _ & Hdata).
  split; [exact burst_names_distinct|]. split; [reflexivity|].
  split; [exact Hn|]. split; [exact Hact|].
  apply (Hdata (String.list_byte_of_string "B")).
  - reflexivity.
  - reflexivity.
  - simpl. apply not_elem_of_empty.
  - simpl. apply not_elem_of_empty.
Defined.

(** *** One handler on the in-memory world *)

(** X10: for one destination, two events share a remote path only when
    they share the local name: different local files never land on the
    same remote file. *)
Theorem remote_paths_differ_for_different_names (destPath : string)
    (e1 e2 : FileEvent) :
  remotePath destPath e1 = remotePath destPath e2 <-> Name e1 = Name e2.
Proof.
  split; [apply remotePath_inj|]. unfold remotePath. by intros ->.
Qed.

(** X11: handling an event changes nothing on the remote machine except
    at the event's own remote path, and nothing on the local side. *)
Theorem handle_touches_only_its_remote_path (destPath : string)
    (evt : FileEvent) (m : Machine MemWorld) (other : string) :
  other <> destPath +:+ "/" +:+ Name evt ->
  remoteFS (world (handle destPath evt m).2) !! other =
    remoteFS (world m) !! other /\
  localFS (world (handle destPath evt m).2) = localFS (world m).
Proof.
  intros Hne. split; [|by apply handle_keeps_local].
  fold (remotePath destPath evt) in Hne.
  destruct (IsDelete evt) eqn:Hd.
  - rewrite handle_delete_remote by done. by apply lookup_delete_ne.
  - rewrite handle_update_remote by done. unfold afterUpdate.
    destruct (localFS (world m) !! Name evt) as [f|]; [|done].
    case_decide; [by apply lookup_delete_ne|].
    destruct f as [data|err]; [|by apply lookup_insert_ne].
    case_decide; by apply lookup_insert_ne.
Qed.

Lemma handle_touches_only_its_remote_path_witness :
  let m1 := (handle "/dest" Scenario.notesCreated
               (idle Scenario.notesWorld)).2 in
  "/dest/other.txt" <> "/dest//src/notes.txt" /\
  remoteFS (world (handle "/dest" Scenario.notesDeleted m1).2)
    !! "/dest/other.txt" = remoteFS (world m1) !! "/dest/other.txt" /\
  localFS (world (handle "/dest" Scenario.notesDeleted m1).2) =
    localFS (world m1).
Proof.
  intros m1.
  assert (Hne : "/dest/other.txt" <> "/dest//src/notes.txt") by discriminate.
  split; [exact Hne|].
  exact (handle_touches_only_its_remote_path "/dest" Scenario.notesDeleted
           m1 "/dest/other.txt" Hne).
Defined.

(** X12: what a failed update leaves at the remote path.  A local file
    that cannot be opened leaves the remote machine untouched; after that
    point the old remote copy is already removed: a refused create leaves
    no file, and a failed read or a refused write leaves an empty file,
    whatever the file held before. *)
Theorem failed_update_leaves (destPath : string) (evt : FileEvent)
    (m : Machine MemWorld) :
  IsDelete evt = false ->
  let path := destPath +:+ "/" +:+ Name evt in
  let after := remoteFS (world (handle destPath evt m).2) in
  (localFS (world m) !! Name evt = None -> after = remoteFS (world m)) /\
  (forall f, localFS (world m) !! Name evt = Some f ->
     path ∈ noCreate (world m) -> after !! path = None) /\
  (forall err, localFS (world m) !! Name evt = Some (Unreadable err) ->
     path ∉ noCreate (world m) -> after !! path = Some []) /\
  (forall data, localFS (world m) !! Name evt = Some (Readable data) ->
     path ∉ noCreate (world m) -> path ∈ noWrite (world m) ->
     after !! path = Some []).
Proof.
  intros Hd path after. subst after.
  rewrite handle_update_remote by done. unfold afterUpdate.
  fold (remotePath destPath evt) in path. fold path. split_and!.
  - by intros ->.
  - intros f -> Hc. rewrite decide_True by done. apply lookup_delete_eq.
  - intros err -> Hc. rewrite decide_False by done. apply lookup_insert_eq.
  - intros data -> Hc Hw. rewrite decide_False, decide_True by done.
    apply lookup_insert_eq.
Qed.

Lemma failed_update_leaves_witness :
  let after :=
    remoteFS (world (handle "/dest" Burst.notesTouched
                       (idle Burst.staleWorld)).2) in
  IsDelete Burst.notesTouched = false /\
  remoteFS Burst.staleWorld !! "/dest/notes.txt" = Some Scenario.hello /\
  after !! "/dest/notes.txt" = Some [].
Proof.
  intros after.
  destruct (failed_update_leaves "/dest" Burst.notesTouched
              (idle Burst.staleWorld) eq_refl) as (_ & _ & Hread & _).
  split; [reflexivity|]. split; [reflexivity|].
  apply (Hread "read notes.txt: is a directory").
  - reflexivity.
  - simpl. apply not_elem_of_empty.
Defined.

(** X13: a Deleted event whose remote file is not there logs the one
    error of the failed remove and changes nothing; so the same Deleted
    event handled a second time always ends that way. *)
Theorem delete_of_missing_remote_file (destPath : string) (evt : FileEvent)
    (m : Machine MemWorld) :
  kind evt = Deleted ->
  let path := destPath +:+ "/" +:+ Name evt in
  (remoteFS (world m) !! path = None ->
     (handle destPath evt m).1 =
       [Act (Infof ("deleting " +:+ path)) tt;
        Act (Remove path) (Some "file does not exist");
        Act (LogError "file does not exist") tt] /\
     world (handle destPath evt m).2 = world m) /\
  (let first := handle destPath evt m in
   let second := handle destPath evt first.2 in
   errorsLogged second.1 = 1 /\ world second.2 = world first.2).
Proof.
  intros Hk path.
  assert (Hd : IsDelete evt = true) by (unfold IsDelete; by rewrite Hk).
  assert (Hmissing : forall m0 : Machine MemWorld,
            remoteFS (world m0) !! path = None ->
            (handle destPath evt m0).1 =
              [Act (Infof ("deleting " +:+ path)) tt;
               Act (Remove path) (Some "file does not exist");
               Act (LogError "file does not exist") tt] /\
            world (handle destPath evt m0).2 = world m0).
  { intros m0 Hnone. unfold handle, handleEvent. rewrite Hd. simpl.
    unfold mem_Remove. fold (remotePath destPath evt) in path. fold path.
    by rewrite Hnone. }
  split; [apply Hmissing|].
  intros first second.
  assert (Hgone : remoteFS (world first.2) !! path = None).
  { subst first. rewrite handle_delete_remote by done.
    apply lookup_delete_eq. }
  destruct (Hmissing first.2 Hgone) as [Ht Hw].
  subst second. by rewrite Ht, Hw.
Qed.

Lemma delete_of_missing_remote_file_witness :
  let first := handle "/dest" Burst.notesRemoved (idle Burst.staleWorld) in
  let second := handle "/dest" Burst.notesRemoved first.2 in
  kind Burst.notesRemoved = Deleted /\
  errorsLogged first.1 = 0 /\
  errorsLogged second.1 = 1 /\ world second.2 = world first.2.
Proof.
  intros first second.
  split; [reflexivity|]. split; [reflexivity|].
  exact (proj2 (delete_of_missing_remote_file "/dest" Burst.notesRemoved
                  (idle Burst.staleWorld) eq_refl)).
Defined.

(** ** The keychain's methods *)

Section SigningFacts.
Import Keychain Signing.
Context {Signer PublicKey Signature Rand : Type}.
Variable signer_PublicKey : Signer -> PublicKey.
Variable signer_Sign :
  Signer -> Rand -> bytes -> option Signature * option error.

(** X14: [Sign] hands on what the held signer returns, except that it
    never returns a signature together with an error: with an error the
    signature is nil.  It panics exactly when the keychain holds no
    key. *)
Theorem keychain_Sign_signature_or_error (k : keychain Signer) (rand : Rand)
    (data : bytes) :
  (keychain_Sign signer_Sign k rand data = None <-> key k = None) /\
  (forall sig err,
     keychain_Sign signer_Sign k rand data = Some (sig, Some err) ->
     sig = None /\
     exists s sig0, key k = Some s /\
                    signer_Sign s rand data = (sig0, Some err)) /\
  (forall s sig, key k = Some s -> signer_Sign s rand data = (sig, None) ->
     keychain_Sign signer_Sign k rand data = Some (sig, None)).
Proof.
  unfold keychain_Sign. split_and!.
  - destruct (key k) as [s|]; [|done].
    destruct (signer_Sign s rand data) as [sig [e|]]; split; done.
  - intros sig err. destruct (key k) as [s|]; [|done].
    destruct (signer_Sign s rand data) as [sig0 [e|]] eqn:Hs; [|done].
    intros [= <- <-]. split; [done|]. by exists s, sig0.
  - by intros s sig -> ->.
Qed.

(** X15: after a [loadPEM] that returned nil the keychain answers
    [PublicKey] with the public key of the key parsed from the file,
    whatever it held before; a fresh keychain whose [loadPEM] failed still
    panics on [PublicKey]. *)
Theorem PublicKey_after_loadPEM
    (readFile : string -> error + bytes)
    (parseKey : bytes -> error + Signer)
    (k : keychain Signer) (file : string) :
  (forall k', loadPEM readFile parseKey k file = (None, k') ->
     exists buf parsed,
       readFile file = inr buf /\ parseKey buf = inr parsed /\
       keychain_PublicKey signer_PublicKey k'
         = Some (signer_PublicKey parsed)) /\
  (forall err k', loadPEM readFile parseKey {| key := None |} file
                    = (Some err, k') ->
     keychain_PublicKey signer_PublicKey k' = None).
Proof.
  unfold loadPEM, keychain_PublicKey. split.
  - intros k'. destruct (readFile file) as [err|buf]; [done|].
    destruct (parseKey buf) as [err|parsed] eqn:Hp; [done|].
    intros [= <-]. by exists buf, parsed.
  - intros err k'. destruct (readFile file) as [e|buf].
    + by intros [= _ <-].
    + destruct (parseKey buf) as [e|parsed]; [|done]. by intros [= _ <-].
Qed.

End SigningFacts.

Lemma keychain_Sign_signature_or_error_witness :
  let sign : nat -> unit -> bytes -> option nat * option error :=
    fun s _ data => if decide (data = []) then (Some 0, Some "empty")
                    else (Some (s + length data), None) in
  let k := {| Keychain.key := Some 7 |} in
  Signing.keychain_Sign sign k tt [] = Some (None, Some "empty") /\
  Signing.keychain_Sign sign k tt Scenario.hello = Some (Some 12, None).
Proof.
  intros sign k.
  destruct (keychain_Sign_signature_or_error sign k tt Scenario.hello)
    as (_ & _ & Hok).
  split; [reflexivity|].
  exact (Hok 7 (Some 12) eq_refl eq_refl).
Defined.

Lemma PublicKey_after_loadPEM_witness :
  let readFile : string -> error + bytes := fun _ => inr Scenario.hello in
  let parseKey : bytes -> error + nat := fun buf => inr (length buf) in
  let r := Keychain.loadPEM readFile parseKey {| Keychain.key := Some 7 |}
             "id_rsa" in
  r = (None, {| Keychain.key := Some 5 |}) /\
  exists buf parsed,
    readFile "id_rsa" = inr buf /\ parseKey buf = inr parsed /\
    Signing.keychain_PublicKey (fun s : nat => s * 2) r.2
      = Some (parsed * 2).
Proof.
  intros readFile parseKey r.
  split; [reflexivity|].
  exact (proj1 (PublicKey_after_loadPEM (fun s : nat => s * 2)
                  readFile parseKey {| Keychain.key := Some 7 |} "id_rsa")
           r.2 eq_refl).
Defined.

(** ** Flags on a parsed command line *)

Section ParsedFlags.
Import Cli.

Lemma findFlag_answers (machinePath n : string) (f : Flag) :
  findFlag (appFlags machinePath) n = Some f ->
  f ∈ appFlags machinePath /\ answersTo n f = true.
Proof.
  intros Hf. apply List.find_some in Hf as [Hin Ha].
  split; [by apply list_elem_of_In|done].
Qed.

(** A string flag of a parsed command line has the value it had before
    parsing, or the value of a setting under a name the flag answers to. *)
Lemma parse_string (machinePath : string) (args : list Arg)
    (c0 c : Context) (name : string) :
  parse (appFlags machinePath) args c0 = Some c ->
  GlobalString c name = GlobalString c0 name \/
  exists n alias value,
    findFlag (appFlags machinePath) n = Some (StringFlag name alias value) /\
    StringArg n (GlobalString c name) ∈ args.
Proof.
  revert c0. induction args as [|a rest IH]; intros c0 Hp; cbn [parse] in Hp.
  - left. by injection Hp as <-.
  - destruct a as [n v|n b].
    + destruct (findFlag _ n) as [[nm alias value|]|] eqn:Hf; try done.
      destruct (IH _ Hp) as [Heq|(n' & al & vl & Hn' & Hin)].
      * rewrite GlobalString_setString in Heq. case_decide as Hname.
        -- subst nm. right. exists n, alias, value. split; [done|].
           rewrite Heq. apply list_elem_of_here.
        -- by left.
      * right. exists n', al, vl. split; [done|].
        by apply list_elem_of_further.
    + destruct (findFlag _ n) as [[|nm alias]|] eqn:Hf; try done.
      destruct (IH _ Hp) as [Heq|(n' & al & vl & Hn' & Hin)].
      * by left.
      * right. exists n', al, vl. split; [done|].
        by apply list_elem_of_further.
Qed.

Lemma parse_bool (machinePath : string) (args : list Arg)
    (c0 c : Context) (name : string) :
  parse (appFlags machinePath) args c0 = Some c ->
  GlobalBool c name = GlobalBool c0 name \/
  exists n alias,
    findFlag (appFlags machinePath) n = Some (BoolFlag name alias) /\
    BoolArg n (GlobalBool c name) ∈ args.
Proof.
  revert c0. induction args as [|a rest IH]; intros c0 Hp; cbn [parse] in Hp.
  - left. by injection Hp as <-.
  - destruct a as [n v|n b].
    + destruct (findFlag _ n) as [[nm alias value|]|] eqn:Hf; try done.
      destruct (IH _ Hp) as [Heq|(n' & al & Hn' & Hin)].
      * by left.
      * right. exists n', al. split; [done|]. by apply list_elem_of_further.
    + destruct (findFlag _ n) as [[|nm alias]|] eqn:Hf; try done.
      destruct (IH _ Hp) as [Heq|(n' & al & Hn' & Hin)].
      * assert (Hset : GlobalBool (setBool nm b c0) name =
                       if decide (nm = name) then b else GlobalBool c0 name).
        { unfold GlobalBool, setBool. simpl. case_decide as Hn.
          - subst. by rewrite lookup_insert_eq.
          - by rewrite lookup_insert_ne. }
        rewrite Hset in Heq. case_decide as Hname.
        -- subst nm. right. exists n, alias. split; [done|].
           rewrite Heq. apply list_elem_of_here.
        -- by left.
      * right. exists n', al. split; [done|]. by apply list_elem_of_further.
Qed.

(** A string flag that no setting of the command line names keeps its
    default. *)
Lemma unset_flag_keeps_default (machinePath : string) (args : list Arg)
    (c : Context) (name alias value : string) :
  StringFlag name alias value ∈ appFlags machinePath ->
  (forall f, f ∈ appFlags machinePath ->
     match f with
     | StringFlag nm al _ => nm = name -> al = alias
     | BoolFlag _ _ => True
     end) ->
  newContext (appFlags machinePath) args = Some c ->
  (forall n v, StringArg n v ∈ args -> n <> name /\ n <> alias) ->
  GlobalString c name = GlobalString (defaults (appFlags machinePath)) name.
Proof.
  intros Hin Huniq Hc Hnone.
  destruct (parse_string machinePath args _ c name Hc)
    as [Heq|(n & al & vl & Hf & Harg)]; [done|].
  apply findFlag_answers in Hf as [Hfin Ha].
  specialize (Huniq _ Hfin eq_refl). subst al. simpl in Ha.
  destruct (Hnone _ _ Harg) as [H1 H2].
  apply orb_prop in Ha as [Ha|Ha]; by apply bool_decide_eq_true in Ha.
Qed.

Lemma appFlags_aliases (machinePath : string) (f : Flag) :
  f ∈ appFlags machinePath ->
  match f with
  | StringFlag nm al _ =>
      (nm = "directory" -> al = "d") /\ (nm = "machine" -> al = "m") /\
      (nm = "destination" -> al = "p") /\ (nm = "user" -> al = "u")
  | BoolFlag nm al => nm = "debug" -> al = "D"
  end.
Proof.
  unfold appFlags. intros Hin.
  repeat (apply elem_of_cons in Hin as [->|Hin]; [by repeat split|]).
  by apply elem_of_nil in Hin.
Qed.

(** X19: the debug line of [checkFlags] is reached only past the four
    checks: the logger is switched to debug level only when the check
    passes, logging nothing, and the command line itself sets -debug / -D
    to true. *)
Theorem debug_level_needs_passing_check (machinePath : string)
    (args : list Arg) (c : Context) :
  newContext (appFlags machinePath) args = Some c ->
  debugLevel (checkFlags c) = true ->
  result (checkFlags c) = None /\ logged (checkFlags c) = [] /\
  exists n, (n = "debug" \/ n = "D") /\ BoolArg n true ∈ args.
Proof.
  intros Hc Hdbg.
  assert (Hpass : result (checkFlags c) = None /\ logged (checkFlags c) = []
                  /\ GlobalBool c "debug" = true).
  { revert Hdbg. unfold checkFlags, flagError.
    repeat case_decide; simpl; done. }
  destruct Hpass as (Hr & Hl & Hb). split; [done|]. split; [done|].
  destruct (parse_bool machinePath args _ c "debug" Hc)
    as [Heq|(n & al & Hf & Harg)].
  - rewrite Hb in Heq. discriminate.
  - apply findFlag_answers in Hf as [Hfin Ha].
    pose proof (appFlags_aliases _ _ Hfin eq_refl) as ->. simpl in Ha.
    rewrite Hb in Harg. exists n. split; [|done].
    apply orb_prop in Ha as [Ha|Ha]; apply bool_decide_eq_true in Ha; auto.
Qed.

(** Directory, machine and destination are empty unless the command line
    sets them. *)
Lemma required_flag_unset (machinePath : string) (args : list Arg)
    (c : Context) (name alias : string) :
  (name, alias) ∈ [("directory", "d"); ("machine", "m");
                   ("destination", "p")] ->
  newContext (appFlags machinePath) args = Some c ->
  (forall n v, StringArg n v ∈ args -> n <> name /\ n <> alias) ->
  GlobalString c name = "".
Proof.
  intros Hna Hc Hnone.
  assert (Huniq : forall f, f ∈ appFlags machinePath ->
            match f with
            | StringFlag nm al _ => nm = name -> al = alias
            | BoolFlag _ _ => True
            end).
  { intros f Hf. pose proof (appFlags_aliases _ _ Hf) as Hal.
    destruct f as [nm al vl|nm al]; [|done].
    destruct Hal as (Hd & Hm & Hp & _). intros ->.
    repeat (apply elem_of_cons in Hna as [[= -> ->]|Hna]; [by auto|]).
    by apply elem_of_nil in Hna. }
  assert (Hin : StringFlag name alias "" ∈ appFlags machinePath).
  { unfold appFlags.
    repeat (apply elem_of_cons in Hna as [[= -> ->]|Hna];
            [by repeat constructor|]).
    by apply elem_of_nil in Hna. }
  rewrite (unset_flag_keeps_default machinePath args c name alias ""
             Hin Huniq Hc Hnone).
  repeat (apply elem_of_cons in Hna as [[= -> ->]|Hna]; [done|]).
  by apply elem_of_nil in Hna.
Qed.

End ParsedFlags.

(** ** Start-up, for any operating system and libraries *)

Section StartupFacts.
Import Cli Keychain Startup Target.
Context {OsFile Signer SshClient SftpClient Watcher : Type}.
Variable ext : Externals OsFile Signer SshClient SftpClient Watcher.

Ltac watch_cases c :=
  unfold watch, loadPEM;
  destruct (loadConfig ext (GlobalString c "machine-path")
              (GlobalString c "machine")) as [?err|[?cfg|]] eqn:?Hcfg;
  [|destruct (ioutil_ReadFile ext _) as [?err|?buf] eqn:?Hread;
    [|destruct (ssh_ParsePrivateKey ext _) as [?err|?signer] eqn:?Hparse;
      [|destruct (ssh_Dial ext _ _ _) as [?err|?client] eqn:?Hdial;
        [|destruct (fsnotify_NewWatcher ext) as [?err|?watcher] eqn:?Hnw;
          [|destruct (watcher_Watch ext _ _) as [?err|] eqn:?Hwatch]]]]
   |destruct (ioutil_ReadFile ext _) as [?err|?buf] eqn:?Hread;
    [|destruct (ssh_ParsePrivateKey ext _) as [?err|?signer] eqn:?Hparse]].

Lemma dialAddr_as_watch (cfg : MachineConfig) :
  (if decide (IPAddress cfg ≠ "") then IPAddress cfg else "127.0.0.1")
  +:+ ":" +:+
  fmt_d ext (if decide (SSHPort cfg ≠ 0%Z) then SSHPort cfg else 22%Z)
  = dialAddr ext cfg.
Proof.
  unfold dialAddr.
  destruct (decide (IPAddress cfg = "")), (decide (IPAddress cfg ≠ ""));
    destruct (decide (SSHPort cfg = 0%Z)), (decide (SSHPort cfg ≠ 0%Z));
    done.
Qed.

(** X16: [watch] stays running exactly when [loadConfig] returns a
    config that is not nil, the key file reads and parses, the dial
    succeeds, the watcher is created and the watch of the directory
    starts; whether [sftp.NewClient] succeeded plays no part.  And it
    panics, before any call is made, exactly when [loadConfig] returns a
    nil config with no error (a config.json that holds null) and the key
    file reads and parses. *)
Theorem watch_runs_iff_five_steps_succeed (c : Context) :
  ((exists calls g, watch ext c = (calls, Watching g)) <->
   (exists cfg buf signer client watcher,
      loadConfig ext (GlobalString c "machine-path")
        (GlobalString c "machine") = inr (Some cfg) /\
      ioutil_ReadFile ext (keyPath ext c) = inr buf /\
      ssh_ParsePrivateKey ext buf = inr signer /\
      ssh_Dial ext "tcp" (dialAddr ext cfg)
        {| User := GlobalString c "user";
           Auth := {| key := Some signer |} |} = inr client /\
      fsnotify_NewWatcher ext = inr watcher /\
      watcher_Watch ext watcher (GlobalString c "directory") = None)) /\
  ((exists calls msg, watch ext c = (calls, Panicked msg)) <->
   (loadConfig ext (GlobalString c "machine-path")
      (GlobalString c "machine") = inr None /\
    exists buf signer,
      ioutil_ReadFile ext (keyPath ext c) = inr buf /\
      ssh_ParsePrivateKey ext buf = inr signer)) /\
  (forall calls msg, watch ext c = (calls, Panicked msg) -> calls = []).
Proof.
  unfold keyPath. split_and!; [split|split|].
  - intros (calls & g & Hw). revert Hw.
    watch_cases c; try (intros [=]; fail).
    intros _. rewrite dialAddr_as_watch in Hdial.
    by exists cfg, buf, signer, client, watcher.
  - intros (cfg & buf & signer & client & watcher &
            Hcfg & Hread & Hparse & Hdial & Hnw & Hwatch).
    unfold watch, loadPEM. rewrite Hcfg, Hread, Hparse.
    rewrite dialAddr_as_watch, Hdial, Hnw, Hwatch. by eexists _, _.
  - intros (calls & msg & Hw). revert Hw.
    watch_cases c; try (intros [=]; fail).
    intros _. split; [done|]. by exists buf, signer.
  - intros (Hcfg & buf & signer & Hread & Hparse).
    unfold watch, loadPEM. rewrite Hcfg, Hread, Hparse. by eexists _, _.
  - intros calls msg. watch_cases c; try (intros [=]; fail).
    by intros [= <- _].
Qed.

(** X17: [watch] dials at most once, and only after the config and the
    key are loaded: over tcp, as the user of the flags, at the address and
    port of the config, with 127.0.0.1 and 22 where the config has none,
    and with the key parsed from the key file. *)
Theorem watch_dials_the_configured_machine (c : Context)
    (network addr user : string) :
  DidDial network addr user ∈ (watch ext c).1 ->
  network = "tcp" /\ user = GlobalString c "user" /\
  exists cfg buf signer,
    loadConfig ext (GlobalString c "machine-path")
      (GlobalString c "machine") = inr (Some cfg) /\
    ioutil_ReadFile ext (keyPath ext c) = inr buf /\
    ssh_ParsePrivateKey ext buf = inr signer /\
    addr = dialAddr ext cfg /\
    length (List.filter
              (fun call => match call with DidDial _ _ _ => true
                                      | _ => false end)
              (watch ext c).1) = 1.
Proof.
  unfold keyPath. watch_cases c; simpl;
    try (intros Hin; by apply elem_of_nil in Hin);
    rewrite dialAddr_as_watch; intros Hin;
    repeat (apply elem_of_cons in Hin as [Hin|Hin]; [try done|]);
    try (by apply elem_of_nil in Hin);
    injection Hin as -> -> ->;
    (split; [done|]); (split; [done|]); by exists cfg, buf, signer.
Qed.

(** X18: the calls of [watch] come in one fixed order and stop at the
    first fatal step: nothing before a successful config and key load, the
    dial first, then the session and the watcher, then the two goroutines,
    then the watch of the directory; a start-up that stays running has made
    all of them. *)
Theorem watch_calls_in_order (c : Context) :
  (watch ext c).1 = [] \/
  exists cfg,
    loadConfig ext (GlobalString c "machine-path")
      (GlobalString c "machine") = inr (Some cfg) /\
    (watch ext c).1 `prefix_of` allCalls ext c cfg /\
    (length (watch ext c).1 = 1 \/ length (watch ext c).1 = 3 \/
     (watch ext c).1 = allCalls ext c cfg) /\
    (forall g, (watch ext c).2 = Watching g ->
       (watch ext c).1 = allCalls ext c cfg).
Proof.
  unfold allCalls. watch_cases c; simpl; auto; right; exists cfg;
    rewrite dialAddr_as_watch; (split; [done|]).
  - split; [by eexists|]. split; [by left|]. done.
  - split; [by eexists|]. split; [by right; left|]. done.
  - split; [by eexists|]. split; [by right; right|]. done.
  - split; [by eexists|]. split; [by right; right|]. done.
Qed.

(** X20: directory, machine and destination have to be given on the
    command line: a command line that sets one of them under neither its
    long name nor its alias never gets as far as [watch]; it ends in the
    usage error of the parser or in the flag error of [checkFlags]. *)
Theorem required_flags_must_be_given (args : list Arg) (name alias : string) :
  (name, alias) ∈ [("directory", "d"); ("machine", "m");
                   ("destination", "p")] ->
  (forall n v, StringArg n v ∈ args -> n <> name /\ n <> alias) ->
  main ext args = UsageError \/ main ext args = BeforeFailed errFlagError.
Proof.
  intros Hna Hnone. unfold main.
  destruct (newContext _ args) as [c|] eqn:Hc; [|by left]. right.
  pose proof (required_flag_unset _ args c name alias Hna Hc Hnone) as He.
  rewrite checkFlags_result. rewrite decide_True; [done|].
  repeat (apply elem_of_cons in Hna as [[= -> ->]|Hna]; [by auto|]).
  by apply elem_of_nil in Hna.
Qed.

(** X21: a start-up that stays running was given all four required
    values: the watched directory, the destination, the machine and the
    user of its package variables are the flags of the command line and
    none of them is empty, and all the calls of [watch] have been made. *)
Theorem running_process_has_all_flags (args : list Arg)
    (calls : list StartupCall) (g : Globals SftpClient) :
  main ext args = Started calls (Watching g) ->
  srcPath g <> "" /\ destPath g <> "" /\ machineName g <> "" /\
  machineUser g <> "" /\
  exists c cfg,
    newContext
      (appFlags (filepath_Join ext [os_Getenv ext "HOME"; ".docker";
                                    "machines"])) args = Some c /\
    srcPath g = GlobalString c "directory" /\
    destPath g = GlobalString c "destination" /\
    machineName g = GlobalString c "machine" /\
    machineUser g = GlobalString c "user" /\
    machineConfigPath g = GlobalString c "machine-path" /\
    calls = allCalls ext c cfg.
Proof.
  unfold main. destruct (newContext _ args) as [c|] eqn:Hc; [|done].
  rewrite checkFlags_result. case_decide as Hany; [done|].
  destruct (watch ext c) as [calls' o] eqn:Hw. intros [= <- ->].
  assert (Hg : srcPath g = GlobalString c "directory" /\
               destPath g = GlobalString c "destination" /\
               machineName g = GlobalString c "machine" /\
               machineUser g = GlobalString c "user" /\
               machineConfigPath g = GlobalString c "machine-path" /\
               exists cfg, calls' = allCalls ext c cfg).
  { revert Hw. unfold allCalls. watch_cases c; try (intros [=]; fail).
    rewrite dialAddr_as_watch. intros [= <- <-]. simpl.
    split_and!; try done. by exists cfg. }
  destruct Hg as (H1 & H2 & H3 & H4 & H5 & cfg & H6).
  rewrite H1, H2, H3, H4.
  split_and!; try (intros He; apply Hany; by auto).
  by exists c, cfg.
Qed.

End StartupFacts.

Lemma watch_runs_iff_five_steps_succeed_witness :
  Startup.loadConfig Boot.bareConfig "/home/dev/.docker/machines" "dev"
    = inr (Some {| Startup.IPAddress := ""; Startup.SSHPort := 0 |}) /\
  Target.dialAddr Boot.bareConfig
    {| Startup.IPAddress := ""; Startup.SSHPort := 0 |} = "127.0.0.1:22" /\
  (exists calls g,
     Startup.watch Boot.bareConfig Boot.context
       = (calls, Startup.Watching g)) /\
  Startup.loadConfig Boot.nullConfig "/home/dev/.docker/machines" "dev"
    = inr None /\
  (exists calls msg,
     Startup.watch Boot.nullConfig Boot.context
       = (calls, Startup.Panicked msg)).
Proof.
  split; [reflexivity|]. split; [reflexivity|]. split.
  - apply (proj1 (watch_runs_iff_five_steps_succeed Boot.bareConfig
                    Boot.context)).
    exists {| Startup.IPAddress := ""; Startup.SSHPort := 0 |}, [],
           tt, tt, tt.
    repeat split.
  - split; [reflexivity|].
    apply (proj1 (proj2 (watch_runs_iff_five_steps_succeed Boot.nullConfig
                           Boot.context))).
    split; [reflexivity|]. exists [], tt. split; reflexivity.
Defined.

(** A config.json that holds null: no error, no call, a panic. *)
Example null_config_panics :
  Startup.main Boot.nullConfig Scenario.commandLine =
    Startup.Started [] (Startup.Panicked Startup.nilDereference).
Proof. reflexivity. Qed.

Lemma boot_dials :
  Startup.DidDial "tcp" "127.0.0.1:22" "root"
    ∈ (Startup.watch Boot.bareConfig Boot.context).1.
Proof. apply list_elem_of_here. Defined.

Lemma watch_dials_the_configured_machine_witness :
  Startup.DidDial "tcp" "127.0.0.1:22" "root"
    ∈ (Startup.watch Boot.bareConfig Boot.context).1 /\
  "root" = Cli.GlobalString Boot.context "user" /\
  exists cfg buf signer,
    Startup.loadConfig Boot.bareConfig
      (Cli.GlobalString Boot.context "machine-path")
      (Cli.GlobalString Boot.context "machine") = inr (Some cfg) /\
    Startup.ioutil_ReadFile Boot.bareConfig
      (Target.keyPath Boot.bareConfig Boot.context) = inr buf /\
    Startup.ssh_ParsePrivateKey Boot.bareConfig buf = inr signer /\
    "127.0.0.1:22" = Target.dialAddr Boot.bareConfig cfg /\
    length (List.filter
              (fun call => match call with Startup.DidDial _ _ _ => true
                                      | _ => false end)
              (Startup.watch Boot.bareConfig Boot.context).1) = 1.
Proof.
  split; [exact boot_dials|].
  exact (proj2 (watch_dials_the_configured_machine Boot.bareConfig
                  Boot.context "tcp" "127.0.0.1:22" "root" boot_dials)).
Defined.

Lemma watch_calls_in_order_witness :
  (Startup.watch Boot.bareConfig Boot.context).2
    = Startup.Watching Boot.running /\
  (Startup.watch Boot.bareConfig Boot.context).1 =
    [Startup.DidDial "tcp" "127.0.0.1:22" "root"; Startup.DidNewClient;
     Startup.DidNewWatcher; Startup.GoEventLoop; Startup.GoErrorLoop;
     Startup.DidWatch "/src"].
Proof.
  assert (Hrun : (Startup.watch Boot.bareConfig Boot.context).2
                 = Startup.Watching Boot.running) by reflexivity.
  split; [exact Hrun|].
  destruct (watch_calls_in_order Boot.bareConfig Boot.context)
    as [Hnil|(cfg & Hcfg & _ & _ & Hall)].
  - discriminate Hnil.
  - injection Hcfg as <-. exact (Hall Boot.running Hrun).
Defined.

Lemma debug_level_needs_passing_check_witness :
  let c := Cli.setBool "debug" true Boot.context in
  Cli.newContext (Cli.appFlags "/home/dev/.docker/machines") Boot.debugLine
    = Some c /\
  Cli.debugLevel (Cli.checkFlags c) = true /\
  Cli.result (Cli.checkFlags c) = None /\ Cli.logged (Cli.checkFlags c) = [] /\
  exists n, (n = "debug" \/ n = "D") /\ Cli.BoolArg n true ∈ Boot.debugLine.
Proof.
  intros c.
  assert (Hc : Cli.newContext (Cli.appFlags "/home/dev/.docker/machines")
                 Boot.debugLine = Some c) by reflexivity.
  assert (Hd : Cli.debugLevel (Cli.checkFlags c) = true) by reflexivity.
  split; [exact Hc|]. split; [exact Hd|].
  exact (debug_level_needs_passing_check "/home/dev/.docker/machines"
           Boot.debugLine c Hc Hd).
Defined.

Lemma required_flags_must_be_given_witness :
  ("directory", "d") ∈ [("directory", "d"); ("machine", "m");
                        ("destination", "p")] /\
  (forall n v, Cli.StringArg n v ∈ Boot.noDirectory ->
     n <> "directory" /\ n <> "d") /\
  (Startup.main Boot.bareConfig Boot.noDirectory = Startup.UsageError \/
   Startup.main Boot.bareConfig Boot.noDirectory
     = Startup.BeforeFailed Cli.errFlagError).
Proof.
  assert (Hna : ("directory", "d") ∈ [("directory", "d"); ("machine", "m");
                                      ("destination", "p")])
    by apply list_elem_of_here.
  assert (Hnone : forall n v, Cli.StringArg n v ∈ Boot.noDirectory ->
            n <> "directory" /\ n <> "d").
  { intros n v Hin. unfold Boot.noDirectory in Hin.
    repeat (apply elem_of_cons in Hin as [Hin|Hin];
            [try discriminate; injection Hin as -> ->; split; discriminate|]).
    by apply elem_of_nil in Hin. }
  split; [exact Hna|]. split; [exact Hnone|].
  exact (required_flags_must_be_given Boot.bareConfig Boot.noDirectory
           "directory" "d" Hna Hnone).
Defined.

Lemma boot_runs :
  Startup.main Boot.bareConfig Scenario.commandLine =
    Startup.Started
      (Target.allCalls Boot.bareConfig Boot.context
         {| Startup.IPAddress := ""; Startup.SSHPort := 0 |})
      (Startup.Watching Boot.running).
Proof. reflexivity. Defined.

Lemma running_process_has_all_flags_witness :
  Startup.main Boot.bareConfig Scenario.commandLine =
    Startup.Started
      (Target.allCalls Boot.bareConfig Boot.context
         {| Startup.IPAddress := ""; Startup.SSHPort := 0 |})
      (Startup.Watching Boot.running) /\
  Startup.srcPath Boot.running <> "" /\
  Startup.destPath Boot.running <> "" /\
  Startup.machineName Boot.running <> "" /\
  Startup.machineUser Boot.running <> "".
Proof.
  split; [exact boot_runs|].
  destruct (running_process_has_all_flags Boot.bareConfig
              Scenario.commandLine _ Boot.running boot_runs)
    as (H1 & H2 & H3 & H4 & _).
  repeat split; assumption.
Defined.

(** ** Events for the same path *)

Section PoolSequences.
Import Fsnotify Sync Pool.
Context {W File Handle : Type} `{S : Sys W File Handle}.

(** A schedule in two parts runs the first part and then the second. *)
Lemma runPool_app (s1 s2 : list nat) (ps : list (Prog File Handle))
    (m : Machine W) :
  runPool (s1 ++ s2) ps m =
    let r1 := runPool s1 ps m in
    let r2 := runPool s2 r1.2.1 r1.2.2 in
    ((r1.1 ++ r2.1)%list, r2.2).
Proof.
  revert ps m. induction s1 as [|i s IH]; intros ps m; simpl.
  - by destruct (runPool s2 ps m).
  - destruct (ps !! i) as [p|]; [|apply IH].
    destruct (step p m) as [[[a p1] m1]|]; [|apply IH].
    rewrite IH. simpl.
    destruct (runPool s (<[i:=p1]> ps) m1) as [t1 [ps1 m2]]. simpl.
    by destruct (runPool s2 ps1 m2).
Qed.

(** A quiet goroutine given all the turns it needs, with nothing else
    scheduled, does what [exec] does. *)
Lemma runPool_alone (n i : nat) (ps : list (Prog File Handle))
    (p : Prog File Handle) (m : Machine W) :
  ps !! i = Some p -> Quiet p -> Within n p ->
  (runPool (replicate n i) ps m).2 = (<[i := Return]> ps, (exec p m).2).
Proof.
  revert ps p m. induction n as [|n IH]; intros ps p m Hp Hq Hw.
  - destruct p as [|R c k]; [|done]. simpl. by rewrite list_insert_id.
  - cbn [replicate runPool]. rewrite Hp.
    destruct p as [|R c k].
    + simpl. clear IH Hw Hq. induction n as [|n IHn]; simpl.
      * by rewrite list_insert_id.
      * by rewrite Hp.
    + destruct Hq as [Hc Hk]. simpl in Hw.
      destruct (perform_quiet c m Hc) as (r & m1 & Hperf & _).
      simpl. rewrite Hperf.
      specialize (IH (<[i := k r]> ps) (k r) m1).
      destruct (runPool (replicate n i) (<[i:=k r]> ps) m1) as [t res].
      simpl in *. rewrite IH; [| |done|done].
      * rewrite list_insert_insert_eq. by destruct (exec (k r) m1).
      * apply list_lookup_insert_eq. by eapply lookup_lt_Some.
Qed.

End PoolSequences.

Import Fsnotify Sync Pool.

(** X22: events for the same path race.  For a readable local file that
    the server accepts, a modify event and a delete event of that file
    leave the remote copy absent when the update handler runs first and
    present, with the local bytes, when the delete handler runs first: the
    remote state after both depends on the schedule, not on the order in
    which the watcher delivered the events. *)
Theorem same_path_events_race (destPath name : string) (data : bytes)
    (m : Machine MemWorld) :
  let path := destPath +:+ "/" +:+ name in
  let pool :=
    eventLoop destPath
      [Event {| Name := name; kind := Modified |};
       Event {| Name := name; kind := Deleted |}] in
  localFS (world m) !! name = Some (Readable data) ->
  path ∉ noCreate (world m) ->
  path ∉ noWrite (world m) ->
  remoteFS (world (runPool (replicate 7 0 ++ replicate 7 1) pool m).2.2)
    !! path = None /\
  remoteFS (world (runPool (replicate 7 1 ++ replicate 7 0) pool m).2.2)
    !! path = Some data.
Proof.
  intros path pool Hl Hc Hw.
  set (upd := {| Name := name; kind := Modified |}).
  set (del := {| Name := name; kind := Deleted |}).
  assert (Hpool : pool = [handleEvent destPath upd; handleEvent destPath del])
    by reflexivity.
  split.
  - rewrite runPool_app. cbn [fst snd].
    rewrite (runPool_alone 7 0 pool (handleEvent destPath upd) m);
      [|by rewrite Hpool|apply handleEvent_Quiet|apply handleEvent_Within].
    cbn [fst snd].
    rewrite (runPool_alone 7 1 _ (handleEvent destPath del));
      [|by rewrite Hpool|apply handleEvent_Quiet|apply handleEvent_Within].
    cbn [fst snd].
    change (exec (handleEvent destPath del) ?x)
      with (handle destPath del x).
    rewrite handle_delete_remote by done. apply lookup_delete_eq.
  - rewrite runPool_app. cbn [fst snd].
    rewrite (runPool_alone 7 1 pool (handleEvent destPath del) m);
      [|by rewrite Hpool|apply handleEvent_Quiet|apply handleEvent_Within].
    cbn [fst snd].
    rewrite (runPool_alone 7 0 _ (handleEvent destPath upd));
      [|by rewrite Hpool|apply handleEvent_Quiet|apply handleEvent_Within].
    cbn [fst snd].
    change (exec (handleEvent destPath upd) ?x)
      with (handle destPath upd x).
    change (exec (handleEvent destPath del) m)
      with (handle destPath del m).
    rewrite handle_update_remote by done.
    destruct (handle_keeps_local destPath del m) as (Hl1 & Hc1 & Hw1).
    unfold afterUpdate. simpl Name.
    fold (remotePath destPath del) in path.
    change (remotePath destPath upd) with path.
    rewrite Hl1, Hc1, Hw1, Hl, !decide_False by done.
    apply lookup_insert_eq.
Qed.

Lemma same_path_events_race_witness :
  let pool :=
    eventLoop "/dest"
      [Event Scenario.notesModified; Event Scenario.notesDeleted] in
  let m := idle Scenario.notesWorld in
  localFS Scenario.notesWorld !! "/src/notes.txt"
    = Some (Readable Scenario.hello) /\
  ("/dest//src/notes.txt" ∉ noCreate Scenario.notesWorld) /\
  ("/dest//src/notes.txt" ∉ noWrite Scenario.notesWorld) /\
  remoteFS (world (runPool (replicate 7 0 ++ replicate 7 1) pool m).2.2)
    !! "/dest//src/notes.txt" = None /\
  remoteFS (world (runPool (replicate 7 1 ++ replicate 7 0) pool m).2.2)
    !! "/dest//src/notes.txt" = Some Scenario.hello.
Proof.
  intros pool m.
  assert (Hl : localFS Scenario.notesWorld !! "/src/notes.txt"
               = Some (Readable Scenario.hello)) by reflexivity.
  assert (Hc : "/dest//src/notes.txt" ∉ noCreate Scenario.notesWorld)
    by (simpl; apply not_elem_of_empty).
  assert (Hw : "/dest//src/notes.txt" ∉ noWrite Scenario.notesWorld)
    by (simpl; apply not_elem_of_empty).
  split; [exact Hl|]. split; [exact Hc|]. split; [exact Hw|].
  exact (same_path_events_race "/dest" "/src/notes.txt" Scenario.hello
           (idle Scenario.notesWorld) Hl Hc Hw).
Defined.
